(** * Plaid integration of mintable: a shallow embedding

    The development follows [src/integrations/plaid/plaidIntegration.ts]:
    the record normalizer and the reconciler of [fetchAccount], the
    pagination loop of [fetchPagedTransactions], and the local exchange
    server of [addAccount] as a machine stepping on the requests and
    callbacks it receives. *)

From stdpp Require Import base option list gmap strings pretty numbers.
From Stdlib Require Import ZArith QArith Qcanon Lia.

Local Open Scope string_scope.
Local Open Scope Z_scope.

(** ** JavaScript values that may be missing *)

Module Js.

(** A property read yields [undefined] when the key is missing, [null]
    when the provider sent an explicit null, and a value otherwise. *)
Inductive t (A : Type) : Type :=
| undefined
| null
| val (a : A).
Arguments undefined {A}.
Arguments null {A}.
Arguments val {A} a.

Definition absent {A} (v : t A) : bool :=
  match v with
  | val _ => false
  | _ => true
  end.

(** [v !== undefined] *)
Definition is_defined {A} (v : t A) : bool :=
  match v with
  | undefined => false
  | _ => true
  end.

(** [v != null]: loose inequality, false for both null and undefined. *)
Definition not_nullish {A} (v : t A) : bool := negb (absent v).

(** Truthiness of a possibly missing string: the empty string is falsy. *)
Definition truthy (v : t string) : bool :=
  match v with
  | val s => negb (String.eqb s "")
  | _ => false
  end.

(** [a || b] on possibly missing strings. *)
Definition or (a b : t string) : t string :=
  if truthy a then a else b.

Inductive Error : Type :=
| TypeError (message : string)
| RangeError (message : string)
| ApiError (code : string).

(** A computation that either throws or returns. *)
Definition Throws (A : Type) : Type := Error + A.

Definition ret {A} (a : A) : Throws A := inr a.
Definition throw {A} (e : Error) : Throws A := inl e.
Definition bind {A B} (m : Throws A) (k : A -> Throws B) : Throws B :=
  match m with
  | inl e => inl e
  | inr a => k a
  end.

(** Reading property [prop] of [v] throws on null and undefined. *)
Definition member {A} (prop : string) (v : t A) : Throws A :=
  match v with
  | undefined =>
      throw (TypeError ("Cannot read property '" +:+ prop +:+ "' of undefined"))
  | null =>
      throw (TypeError ("Cannot read property '" +:+ prop +:+ "' of null"))
  | val a => ret a
  end.

(** [Array.prototype.map] with a callback that may throw: elements are
    visited left to right and the first exception aborts the map. *)
Fixpoint map_throws {A B} (f : A -> Throws B) (l : list A) : Throws (list B) :=
  match l with
  | [] => ret []
  | x :: l' =>
      bind (f x) (fun y => bind (map_throws f l') (fun ys => ret (y :: ys)))
  end.

(** A promise as its observer sees it once the model has run. *)
Inductive Settled (A : Type) : Type :=
| Resolved (a : A)
| Rejected (e : Error).
Arguments Resolved {A} a.
Arguments Rejected {A} e.

End Js.

Abbreviation js := Js.t.
Notation "'let!' x ':=' m 'in' k" := (Js.bind m (fun x => k))
  (at level 10, x name, m at level 100, k at level 200).
Infix "|||" := Js.or (at level 50, left associativity).

(** JSON numbers are finite; the code copies them without computing. *)
Abbreviation number := Qc.

Inductive IntegrationId : Type := Plaid | Google.

(** ** Provider payloads *)

Module RawBalances.
Record t : Type := mk {
    available : js number;
    current : js number;
    limit : js number;
    iso_currency_code : js string;
    unofficial_currency_code : js string
  }.
End RawBalances.

Module RawAccount.
Record t : Type := mk {
    account_id : string;
    balances : RawBalances.t;
    mask : js string;
    name : js string;
    official_name : js string;
    subtype : js string;
    type : js string
  }.
End RawAccount.

Module RawLocation.
Record t : Type := mk {
    address : js string;
    city : js string;
    region : js string;
    postal_code : js string;
    country : js string;
    lat : js number;
    lon : js number
  }.
End RawLocation.

Module RawTransaction.
Record t : Type := mk {
    account_id : string;
    amount : js number;
    iso_currency_code : js string;
    unofficial_currency_code : js string;
    category : js (list string);
    date : string;
    location : js RawLocation.t;
    name : js string;
    pending : js bool;
    transaction_id : string;
    transaction_type : js string
  }.
End RawTransaction.

Module TransactionsResponse.
Record t : Type := mk {
    accounts : list RawAccount.t;
    transactions : list RawTransaction.t;
    total_transactions : Z
  }.
End TransactionsResponse.

Module TransactionsRequestOptions.
Record t : Type := mk { count : Z; offset : Z }.
End TransactionsRequestOptions.

(** ** Canonical shapes *)

(** A JavaScript [Date]: a time value in milliseconds, or none for an
    invalid date. *)
Definition Date : Type := option Z.

Module Transaction.
Record t : Type := mk {
    integration : IntegrationId;
    name : js string;
    date : Date;
    amount : js number;
    currency : js string;
    type : js string;
    accountId : string;
    transactionId : string;
    category : string;
    address : js string;
    city : js string;
    state : js string;
    postal_code : js string;
    country : js string;
    latitude : js number;
    longitude : js number;
    pending : js bool;
    (* set by the reconciler only *)
    institution : js string;
    account : js string
  }.
End Transaction.

Module Account.
Record t : Type := mk {
    integration : IntegrationId;
    accountId : string;
    mask : js string;
    institution : js string;
    account : js string;
    type : js string;
    current : js number;
    available : js number;
    limit : js number;
    currency : js string;
    (* set by the reconciler only *)
    transactions : js (list Transaction.t)
  }.
End Account.

Module AccountConfig.
Record t : Type := mk {
    id : string;
    integration : IntegrationId;
    token : string
  }.
End AccountConfig.

(** ** Record normalizer (the two [map] callbacks of [fetchAccount]) *)

Section Normalizer.

Variable parseISO : string -> Date.

Definition toAccount (account : RawAccount.t) : Account.t :=
  let balances := RawAccount.balances account in
  {| Account.integration := Plaid;
     Account.accountId := RawAccount.account_id account;
     Account.mask := RawAccount.mask account;
     Account.institution := RawAccount.name account;
     Account.account := RawAccount.official_name account;
     Account.type := RawAccount.subtype account ||| RawAccount.type account;
     Account.current := RawBalances.current balances;
     Account.available := RawBalances.available balances;
     Account.limit := RawBalances.limit balances;
     Account.currency :=
       RawBalances.iso_currency_code balances
       ||| RawBalances.unofficial_currency_code balances;
     Account.transactions := Js.undefined |}.

Definition toTransaction (transaction : RawTransaction.t)
  : Js.Throws Transaction.t :=
  let! category := Js.member "join" (RawTransaction.category transaction) in
  let! location := Js.member "address" (RawTransaction.location transaction) in
  Js.ret
    {| Transaction.integration := Plaid;
       Transaction.name := RawTransaction.name transaction;
       Transaction.date := parseISO (RawTransaction.date transaction);
       Transaction.amount := RawTransaction.amount transaction;
       Transaction.currency :=
         RawTransaction.iso_currency_code transaction
         ||| RawTransaction.unofficial_currency_code transaction;
       Transaction.type := RawTransaction.transaction_type transaction;
       Transaction.accountId := RawTransaction.account_id transaction;
       Transaction.transactionId := RawTransaction.transaction_id transaction;
       Transaction.category := String.concat " - " category;
       Transaction.address := RawLocation.address location;
       Transaction.city := RawLocation.city location;
       Transaction.state := RawLocation.region location;
       Transaction.postal_code := RawLocation.postal_code location;
       Transaction.country := RawLocation.country location;
       Transaction.latitude := RawLocation.lat location;
       Transaction.longitude := RawLocation.lon location;
       Transaction.pending := RawTransaction.pending transaction;
       Transaction.institution := Js.undefined;
       Transaction.account := Js.undefined |}.

End Normalizer.

(** ** Reconciler (the third [map] of [fetchAccount]) *)

(** [{ ...transaction, institution: account.institution, account: account.account }] *)
Definition embed (account : Account.t) (transaction : Transaction.t)
  : Transaction.t :=
  {| Transaction.integration := Transaction.integration transaction;
     Transaction.name := Transaction.name transaction;
     Transaction.date := Transaction.date transaction;
     Transaction.amount := Transaction.amount transaction;
     Transaction.currency := Transaction.currency transaction;
     Transaction.type := Transaction.type transaction;
     Transaction.accountId := Transaction.accountId transaction;
     Transaction.transactionId := Transaction.transactionId transaction;
     Transaction.category := Transaction.category transaction;
     Transaction.address := Transaction.address transaction;
     Transaction.city := Transaction.city transaction;
     Transaction.state := Transaction.state transaction;
     Transaction.postal_code := Transaction.postal_code transaction;
     Transaction.country := Transaction.country transaction;
     Transaction.latitude := Transaction.latitude transaction;
     Transaction.longitude := Transaction.longitude transaction;
     Transaction.pending := Transaction.pending transaction;
     Transaction.institution := Account.institution account;
     Transaction.account := Account.account account |}.

(** [transaction.accountId === account.accountId] *)
Definition owned_by (account : Account.t) (transaction : Transaction.t) : bool :=
  String.eqb (Transaction.accountId transaction) (Account.accountId account).

Definition attached (transactions : list Transaction.t) (account : Account.t)
  : list Transaction.t :=
  List.map (embed account) (List.filter (owned_by account) transactions).

(** [{ ...account, transactions: ... }] *)
Definition with_transactions (account : Account.t)
    (transactions : list Transaction.t) : Account.t :=
  {| Account.integration := Account.integration account;
     Account.accountId := Account.accountId account;
     Account.mask := Account.mask account;
     Account.institution := Account.institution account;
     Account.account := Account.account account;
     Account.type := Account.type account;
     Account.current := Account.current account;
     Account.available := Account.available account;
     Account.limit := Account.limit account;
     Account.currency := Account.currency account;
     Account.transactions := Js.val transactions |}.

Definition attach (accounts : list Account.t) (transactions : list Transaction.t)
  : list Account.t :=
  List.map (fun account => with_transactions account (attached transactions account))
    accounts.

(** ** Logging *)

(** Modelled from the spec: [lib/logging] is not among the sources. The
    spec says that failures are logged and that the handshake settles its
    promise with a logged message, so [logInfo], [logWarn] and [logError]
    are taken to append one entry to the log and to return normally; the
    value they return is represented by the entry itself. *)
Module Log.
Inductive Level : Type := Info | Warn | Error.
Record Entry (D : Type) : Type := mk {
  level : Level;
  message : string;
  data : D
}.
Arguments mk {D} level message data.
Arguments level {D} e.
Arguments message {D} e.
Arguments data {D} e.
End Log.

(** ** Paginated fetcher and the per-account pipeline *)

Inductive FetchData : Type :=
| NoData
| Failure (error : Js.Error)
| Accounts (accounts : list Account.t).

(** One call of [client.getTransactions]: the options object as it was
    when the call was made, and what the awaited promise gave. *)
Record Call : Type := mkCall {
  request : TransactionsRequestOptions.t;
  response : Js.Throws TransactionsResponse.t
}.

(** [startDate < other] compares time values; an invalid date compares
    false. *)
Definition date_lt (a b : Date) : bool :=
  match a, b with
  | Some x, Some y => x <? y
  | _, _ => false
  end.

Section Fetch.

(** The provider is a machine of its own: a call moves its state and
    either rejects or resolves with a page. *)
Variable PS : Type.
Variable getTransactions :
  PS -> string -> string -> string -> TransactionsRequestOptions.t ->
  PS * Js.Throws TransactionsResponse.t.

(** date-fns *)
Variable format : Date -> string -> Js.Throws string.
Variable parseISO : string -> Date.
Variable subMonths : Date -> Z -> Date.
(** [new Date()] at the time of the call *)
Variable now : Date.

Record Paged : Type := mkPaged {
  provider : PS;
  calls : list Call;
  (** [None]: the loop has not ended within the fuel given *)
  outcome : option (Js.Settled TransactionsResponse.t)
}.

Definition record_call (c : Call) (p : Paged) : Paged :=
  {| provider := provider p; calls := c :: calls p; outcome := outcome p |}.

(** [options.offset += options.count] *)
Definition next_options (options : TransactionsRequestOptions.t)
  : TransactionsRequestOptions.t :=
  {| TransactionsRequestOptions.count := TransactionsRequestOptions.count options;
     TransactionsRequestOptions.offset :=
       TransactionsRequestOptions.offset options
       + TransactionsRequestOptions.count options |}.

(** [accounts.transactions = accounts.transactions.concat(next_page.transactions)] *)
Definition concat_page (accounts next_page : TransactionsResponse.t)
  : TransactionsResponse.t :=
  {| TransactionsResponse.accounts := TransactionsResponse.accounts accounts;
     TransactionsResponse.transactions :=
       TransactionsResponse.transactions accounts
       ++ TransactionsResponse.transactions next_page;
     TransactionsResponse.total_transactions :=
       TransactionsResponse.total_transactions accounts |}.

(** The [while] loop; [fuel] bounds the number of iterations. *)
Fixpoint paging (fuel : nat) (s : PS) (token start end_ : string)
    (options : TransactionsRequestOptions.t)
    (accounts : TransactionsResponse.t) : Paged :=
  if Z.of_nat (length (TransactionsResponse.transactions accounts))
     <? TransactionsResponse.total_transactions accounts
  then
    match fuel with
    | O => {| provider := s; calls := []; outcome := None |}
    | S fuel' =>
        let options' := next_options options in
        let r := getTransactions s token start end_ options' in
        record_call {| request := options'; response := snd r |}
          match snd r with
          | inl e =>
              {| provider := fst r; calls := []; outcome := Some (Js.Rejected e) |}
          | inr next_page =>
              paging fuel' (fst r) token start end_ options'
                (concat_page accounts next_page)
          end
    end
  else {| provider := s; calls := []; outcome := Some (Js.Resolved accounts) |}.

Definition dateFormat : string := "yyyy-MM-dd".

Definition fetchPagedTransactions (fuel : nat) (s : PS)
    (accountConfig : AccountConfig.t) (startDate endDate : Date) : Paged :=
  match format startDate dateFormat with
  | inl e => {| provider := s; calls := []; outcome := Some (Js.Rejected e) |}
  | inr start =>
      match format endDate dateFormat with
      | inl e => {| provider := s; calls := []; outcome := Some (Js.Rejected e) |}
      | inr end_ =>
          let options :=
            {| TransactionsRequestOptions.count := 500;
               TransactionsRequestOptions.offset := 0 |} in
          let token := AccountConfig.token accountConfig in
          let r := getTransactions s token start end_ options in
          record_call {| request := options; response := snd r |}
            match snd r with
            | inl e =>
                {| provider := fst r; calls := []; outcome := Some (Js.Rejected e) |}
            | inr accounts => paging fuel (fst r) token start end_ options accounts
            end
      end
  end.

Record Fetched : Type := mkFetched {
  paged : Paged;
  log : list (Log.Entry FetchData);
  (** [None]: the promise is still pending *)
  result : option (Js.Settled (list Account.t))
}.

(** The body of the [then] callback up to the value it returns. *)
Definition normalize_and_attach (data : TransactionsResponse.t)
  : Js.Throws (list Account.t) :=
  let accounts := List.map toAccount (TransactionsResponse.accounts data) in
  let! transactions :=
    Js.map_throws (toTransaction parseISO) (TransactionsResponse.transactions data) in
  Js.ret (attach accounts transactions).

Definition fetched_message (data : TransactionsResponse.t) : string :=
  "Fetched " +:+ pretty (length (TransactionsResponse.accounts data))
  +:+ " sub-accounts and "
  +:+ pretty (TransactionsResponse.total_transactions data)
  +:+ " transactions.".

Definition history_warning : Log.Entry FetchData :=
  Log.mk Log.Warn
    "Transaction history older than 6 months may not be available for some institutions."
    NoData.

Definition failure_entry (accountConfig : AccountConfig.t) (error : Js.Error)
  : Log.Entry FetchData :=
  Log.mk Log.Error
    ("Error fetching account " +:+ AccountConfig.id accountConfig +:+ ".")
    (Failure error).

Definition fetchAccount (fuel : nat) (s : PS)
    (accountConfig : AccountConfig.t) (startDate endDate : Date) : Fetched :=
  let warned :=
    if date_lt startDate (subMonths now 5) then [history_warning] else [] in
  let p := fetchPagedTransactions fuel s accountConfig startDate endDate in
  let catch error :=
    {| paged := p;
       log := warned ++ [failure_entry accountConfig error];
       result := Some (Js.Resolved []) |} in
  match outcome p with
  | None => {| paged := p; log := warned; result := None |}
  | Some (Js.Rejected error) => catch error
  | Some (Js.Resolved data) =>
      match normalize_and_attach data with
      | inl error => catch error
      | inr accounts =>
          {| paged := p;
             log := warned ++ [Log.mk Log.Info (fetched_message data) (Accounts accounts)];
             result := Some (Js.Resolved accounts) |}
      end
  end.

End Fetch.

Arguments provider {PS} p.
Arguments calls {PS} p.
Arguments outcome {PS} p.
Arguments paged {PS} f.
Arguments log {PS} f.
Arguments result {PS} f.

(** ** Exchange server: the handshake of [addAccount] *)

Module TokenResponse.
Record t : Type := mk {
  access_token : string;
  item_id : string
}.
End TokenResponse.

(** The part of the configuration that this file reads and writes. *)
Module Config.
Record t : Type := mk {
  accounts : gmap string AccountConfig.t
}.
End Config.

Module Handshake.

(** [req.body] of a post to [/get_access_token] *)
Record Body : Type := mkBody {
  public_token : js string;
  exit : js bool;
  error : js string
}.

Inductive Data : Type :=
| NoData
| ExchangeError (error : js Js.Error)
| ClientError (error : js string).

Abbreviation Entry := (Log.Entry Data).

(** The promise that [addAccount] returns. *)
Inductive Promise : Type :=
| Pending
| Fulfilled (value : Entry)
| Rejected (reason : Entry).

Record State : Type := mkState {
  (** the configuration behind [updateConfig] *)
  store : Config.t;
  (** [this.config] *)
  this_config : Config.t;
  promise : Promise;
  (** the server of [createServer(app).listen('8000')] *)
  listening : bool;
  (** how many times [server.close()] has been called *)
  close_calls : nat;
  (** calls of [client.exchangePublicToken] whose callback has not run *)
  exchanging : nat;
  log : list Entry;
  (** exceptions thrown out of the exchange callback *)
  uncaught : list Js.Error
}.

Inductive Event : Type :=
| GetRoot
| PostGetAccessToken (body : Body)
| PostAccounts
| PostExchangeAccessToken (token : js string)
| PostDone
(** the provider client runs the callback given to [exchangePublicToken] *)
| ExchangeCallback (error : js Js.Error) (tokenResponse : js TokenResponse.t).

Definition write_log (entry : Entry) (st : State) : State :=
  {| store := store st; this_config := this_config st; promise := promise st;
     listening := listening st; close_calls := close_calls st;
     exchanging := exchanging st; log := log st ++ [entry];
     uncaught := uncaught st |}.

Definition settle (p : Promise) (st : State) : State :=
  {| store := store st; this_config := this_config st;
     promise := match promise st with Pending => p | settled => settled end;
     listening := listening st; close_calls := close_calls st;
     exchanging := exchanging st; log := log st; uncaught := uncaught st |}.

(** [resolve(logInfo(message))] *)
Definition resolve_logInfo (message : string) (st : State) : State :=
  let entry := Log.mk Log.Info message NoData in
  settle (Fulfilled entry) (write_log entry st).

(** [reject(logError(message, data))] *)
Definition reject_logError (message : string) (data : Data) (st : State) : State :=
  let entry := Log.mk Log.Error message data in
  settle (Rejected entry) (write_log entry st).

Definition set_config (config : Config.t) (st : State) : State :=
  {| store := config; this_config := config; promise := promise st;
     listening := listening st; close_calls := close_calls st;
     exchanging := exchanging st; log := log st; uncaught := uncaught st |}.

Definition set_exchanging (n : nat) (st : State) : State :=
  {| store := store st; this_config := this_config st; promise := promise st;
     listening := listening st; close_calls := close_calls st;
     exchanging := n; log := log st; uncaught := uncaught st |}.

Definition raise (e : Js.Error) (st : State) : State :=
  {| store := store st; this_config := this_config st; promise := promise st;
     listening := listening st; close_calls := close_calls st;
     exchanging := exchanging st; log := log st;
     uncaught := uncaught st ++ [e] |}.

(** [server.close()] *)
Definition close (st : State) : State :=
  {| store := store st; this_config := this_config st; promise := promise st;
     listening := false; close_calls := S (close_calls st);
     exchanging := exchanging st; log := log st; uncaught := uncaught st |}.

(** Modelled from the spec: [updateConfig] of [lib/config] is not among
    the sources. The spec has the credential store mutated only by the
    exchange server and keyed by item id, so [updateConfig] is taken to
    hand the stored configuration to its callback and to store what the
    callback returns; when the callback throws nothing is stored. The
    callback of [savePublicToken] also assigns the configuration to
    [this.config]. *)
Definition updateConfig (updater : Config.t -> Js.Throws Config.t) (st : State)
  : Js.Throws State :=
  let! config := updater (store st) in
  Js.ret (set_config config st).

Definition savePublicToken (tokenResponse : js TokenResponse.t) (st : State)
  : Js.Throws State :=
  updateConfig
    (fun config =>
       let! response := Js.member "item_id" tokenResponse in
       Js.ret
         {| Config.accounts :=
              <[TokenResponse.item_id response :=
                  {| AccountConfig.id := TokenResponse.item_id response;
                     AccountConfig.integration := Plaid;
                     AccountConfig.token := TokenResponse.access_token response |}]>
                (Config.accounts config) |})
    st.

(** The callback passed to [client.exchangePublicToken]. There is no
    [return] after [reject]: the token response is saved either way. *)
Definition exchange_callback (error : js Js.Error)
    (tokenResponse : js TokenResponse.t) (st : State) : State :=
  let st1 :=
    if Js.not_nullish error
    then reject_logError "Encountered error exchanging Plaid public token."
           (ExchangeError error) st
    else st in
  match savePublicToken tokenResponse st1 with
  | inl e => raise e st1
  | inr st2 => resolve_logInfo "Plaid access token saved." st2
  end.

(** The handler of [/get_access_token]. *)
Definition get_access_token (body : Body) (st : State) : State :=
  if Js.is_defined (public_token body) then
    set_exchanging (S (exchanging st)) st
  else if Js.is_defined (exit body) then
    resolve_logInfo "Plaid authentication cancelled." st
  else
    reject_logError "Encountered error during authentication."
      (ClientError (error body)) st.

(** One request or callback. The endpoints [/], [/accounts] and
    [/exchangeAccessToken] read [this.config] and the provider and write
    nothing that the state holds. [None]: the callback cannot run, no
    exchange is under way. *)
Definition step (st : State) (ev : Event) : option State :=
  match ev with
  | GetRoot | PostAccounts | PostExchangeAccessToken _ => Some st
  | PostGetAccessToken body => Some (get_access_token body st)
  | PostDone => Some (close st)
  | ExchangeCallback error tokenResponse =>
      match exchanging st with
      | O => None
      | S n => Some (exchange_callback error tokenResponse (set_exchanging n st))
      end
  end.

Fixpoint run (st : State) (evs : list Event) : option State :=
  match evs with
  | [] => Some st
  | ev :: evs' =>
      match step st ev with
      | None => None
      | Some st' => run st' evs'
      end
  end.

(** [addAccount()] up to the return of the promise. *)
Definition addAccount (config : Config.t) : State :=
  {| store := config; this_config := config; promise := Pending;
     listening := true; close_calls := 0; exchanging := 0;
     log := []; uncaught := [] |}.

Definition is_done (ev : Event) : bool :=
  match ev with
  | PostDone => true
  | _ => false
  end.

(** The widget reports an exit and no public token. *)
Definition is_exit (body : Body) : bool :=
  negb (Js.is_defined (public_token body)) && Js.is_defined (exit body).

(** The widget reports neither a public token nor an exit. *)
Definition is_client_error (body : Body) : bool :=
  negb (Js.is_defined (public_token body)) && negb (Js.is_defined (exit body)).

End Handshake.

(** ** Notions used to state the properties *)

(** How a currency field relates to the two codes it is resolved from. *)
Definition resolved_from (iso unofficial currency : js string) : Prop :=
  (forall code, iso = Js.val code -> code <> "" -> currency = Js.val code)
  /\ (Js.absent iso = true \/ iso = Js.val "" -> currency = unofficial)
  /\ (currency = iso \/ currency = unofficial).

(** Attachment leaves these fields of an account alone. *)
Definition same_account_fields (a a' : Account.t) : Prop :=
  Account.integration a' = Account.integration a
  /\ Account.accountId a' = Account.accountId a
  /\ Account.mask a' = Account.mask a
  /\ Account.institution a' = Account.institution a
  /\ Account.account a' = Account.account a
  /\ Account.type a' = Account.type a
  /\ Account.current a' = Account.current a
  /\ Account.available a' = Account.available a
  /\ Account.limit a' = Account.limit a
  /\ Account.currency a' = Account.currency a.

(** Attachment leaves these fields of a transaction alone. *)
Definition same_transaction_fields (t t' : Transaction.t) : Prop :=
  Transaction.integration t' = Transaction.integration t
  /\ Transaction.name t' = Transaction.name t
  /\ Transaction.date t' = Transaction.date t
  /\ Transaction.amount t' = Transaction.amount t
  /\ Transaction.currency t' = Transaction.currency t
  /\ Transaction.type t' = Transaction.type t
  /\ Transaction.accountId t' = Transaction.accountId t
  /\ Transaction.transactionId t' = Transaction.transactionId t
  /\ Transaction.category t' = Transaction.category t
  /\ Transaction.address t' = Transaction.address t
  /\ Transaction.city t' = Transaction.city t
  /\ Transaction.state t' = Transaction.state t
  /\ Transaction.postal_code t' = Transaction.postal_code t
  /\ Transaction.country t' = Transaction.country t
  /\ Transaction.latitude t' = Transaction.latitude t
  /\ Transaction.longitude t' = Transaction.longitude t
  /\ Transaction.pending t' = Transaction.pending t.

(** The transactions that the result holds for the account at index [i]. *)
Definition transactions_at (out : list Account.t) (i : nat)
  : option (list Transaction.t) :=
  match nth_error out i with
  | Some a =>
      match Account.transactions a with
      | Js.val l => Some l
      | _ => None
      end
  | None => None
  end.

Definition ceil_div (a b : Z) : Z := (a + b - 1) / b.

(** The offsets [first], [first + 500], ... of [n] successive requests. *)
Fixpoint offsets_from (first : Z) (n : nat) : list Z :=
  match n with
  | O => []
  | S n' => first :: offsets_from (first + 500) n'
  end.

Definition requested_offsets (calls : list Call) : list Z :=
  List.map (fun c => TransactionsRequestOptions.offset (request c)) calls.

(** The transactions that a call delivered. *)
Definition page_of (c : Call) : list RawTransaction.t :=
  match response c with
  | inr page => TransactionsResponse.transactions page
  | inl _ => []
  end.

(** The provider reports [total] on every page and serves the page at
    offset [k] with [min(500, total - k)] records. *)
Definition consistent {PS : Type}
    (getTransactions :
       PS -> string -> string -> string -> TransactionsRequestOptions.t ->
       PS * Js.Throws TransactionsResponse.t)
    (total : Z) : Prop :=
  forall s token start end_ options,
    TransactionsRequestOptions.count options = 500 ->
    0 <= TransactionsRequestOptions.offset options <= total ->
    exists page,
      snd (getTransactions s token start end_ options) = inr page
      /\ TransactionsResponse.total_transactions page = total
      /\ Z.of_nat (length (TransactionsResponse.transactions page))
         = Z.min 500 (total - TransactionsRequestOptions.offset options).

(** The entry that [savePublicToken] writes for a token response. *)
Definition saved_account (response : TokenResponse.t) : AccountConfig.t :=
  {| AccountConfig.id := TokenResponse.item_id response;
     AccountConfig.integration := Plaid;
     AccountConfig.token := TokenResponse.access_token response |}.

Ltac handshake_cases :=
  repeat match goal with
    | |- context [Js.not_nullish ?e] => destruct e; simpl
    | |- context [match Handshake.promise ?st with _ => _ end] =>
        destruct (Handshake.promise st); simpl
    | |- context [Js.is_defined ?v] => destruct v; simpl
    end.

(** ** Sample data *)

Module Sample.

Definition parseISO (s : string) : Date :=
  if String.eqb s "2020-01-15" then Some 1579046400000 else None.

Definition format (d : Date) (fmt : string) : Js.Throws string :=
  match d with
  | Some _ => Js.ret "2020-01-15"
  | None => Js.throw (Js.RangeError "Invalid time value")
  end.

Definition subMonths (d : Date) (n : Z) : Date :=
  option_map (fun t => t - n * 2629800000) d.

Definition now : Date := Some 1600000000000.

Definition balances (iso unofficial : js string) : RawBalances.t :=
  {| RawBalances.available := Js.null;
     RawBalances.current := Js.val (Q2Qc 120.5);
     RawBalances.limit := Js.null;
     RawBalances.iso_currency_code := iso;
     RawBalances.unofficial_currency_code := unofficial |}.

Definition account (id : string) (iso unofficial : js string) : RawAccount.t :=
  {| RawAccount.account_id := id;
     RawAccount.balances := balances iso unofficial;
     RawAccount.mask := Js.null;
     RawAccount.name := Js.val "Checking";
     RawAccount.official_name := Js.null;
     RawAccount.subtype := Js.val "checking";
     RawAccount.type := Js.val "depository" |}.

Definition location : RawLocation.t :=
  {| RawLocation.address := Js.null;
     RawLocation.city := Js.val "Lafayette";
     RawLocation.region := Js.val "IN";
     RawLocation.postal_code := Js.null;
     RawLocation.country := Js.undefined;
     RawLocation.lat := Js.null;
     RawLocation.lon := Js.null |}.

Definition transaction (id owner : string) (category : js (list string))
    (loc : js RawLocation.t) : RawTransaction.t :=
  {| RawTransaction.account_id := owner;
     RawTransaction.amount := Js.val (Q2Qc 12);
     RawTransaction.iso_currency_code := Js.val "USD";
     RawTransaction.unofficial_currency_code := Js.null;
     RawTransaction.category := category;
     RawTransaction.date := "2020-01-15";
     RawTransaction.location := loc;
     RawTransaction.name := Js.val "Coffee";
     RawTransaction.pending := Js.val false;
     RawTransaction.transaction_id := id;
     RawTransaction.transaction_type := Js.val "place" |}.

Definition food : js (list string) := Js.val ["Food and Drink"; "Coffee Shop"].

Definition accountConfig : AccountConfig.t :=
  {| AccountConfig.id := "itemX";
     AccountConfig.integration := Plaid;
     AccountConfig.token := "accX" |}.

(** A provider without state that serves slices of a fixed ledger. *)
Definition serve (accounts : list RawAccount.t) (ledger : list RawTransaction.t)
    (s : unit) (token start end_ : string)
    (options : TransactionsRequestOptions.t)
  : unit * Js.Throws TransactionsResponse.t :=
  (tt,
   Js.ret
     {| TransactionsResponse.accounts := accounts;
        TransactionsResponse.transactions :=
          take (Z.to_nat (TransactionsRequestOptions.count options))
            (drop (Z.to_nat (TransactionsRequestOptions.offset options)) ledger);
        TransactionsResponse.total_transactions := Z.of_nat (length ledger) |}).

(** A provider that rejects every call. *)
Definition refuse (s : unit) (token start end_ : string)
    (options : TransactionsRequestOptions.t)
  : unit * Js.Throws TransactionsResponse.t :=
  (tt, Js.throw (Js.ApiError "ITEM_LOGIN_REQUIRED")).

Definition ledger (n : nat) : list RawTransaction.t :=
  List.map (fun i => transaction (pretty i) "acc1" food (Js.val location)) (seq 0 n).

Definition plain_transaction (id owner : string) : Transaction.t :=
  {| Transaction.integration := Plaid;
     Transaction.name := Js.val "Coffee";
     Transaction.date := Some 1579046400000;
     Transaction.amount := Js.null;
     Transaction.currency := Js.val "USD";
     Transaction.type := Js.val "place";
     Transaction.accountId := owner;
     Transaction.transactionId := id;
     Transaction.category := "Food and Drink";
     Transaction.address := Js.null;
     Transaction.city := Js.null;
     Transaction.state := Js.null;
     Transaction.postal_code := Js.null;
     Transaction.country := Js.null;
     Transaction.latitude := Js.null;
     Transaction.longitude := Js.null;
     Transaction.pending := Js.val false;
     Transaction.institution := Js.undefined;
     Transaction.account := Js.undefined |}.

Definition token_body : Handshake.Body :=
  {| Handshake.public_token := Js.val "tok1";
     Handshake.exit := Js.undefined;
     Handshake.error := Js.undefined |}.

Definition exit_body : Handshake.Body :=
  {| Handshake.public_token := Js.undefined;
     Handshake.exit := Js.val true;
     Handshake.error := Js.undefined |}.

Definition error_body : Handshake.Body :=
  {| Handshake.public_token := Js.undefined;
     Handshake.exit := Js.undefined;
     Handshake.error := Js.val "INVALID_CREDENTIALS" |}.

Definition tokenResponse : TokenResponse.t :=
  {| TokenResponse.access_token := "accX"; TokenResponse.item_id := "itemX" |}.

Definition no_accounts : Config.t := {| Config.accounts := ∅ |}.

(** The handshake has received a public token and awaits the exchange. *)
Definition exchanging : Handshake.State :=
  Handshake.get_access_token token_body (Handshake.addAccount no_accounts).

End Sample.

(** ** Account listing: the handler of [/accounts] *)

Module AccountsResponse.
Record t : Type := mk {
  accounts : list RawAccount.t
}.
End AccountsResponse.

Module Listing.

(** One element of the array that the handler sends back. *)
Record Entry : Type := mkEntry {
  name : js string;
  token : string
}.

Definition placeholder : string := "Error fetching account name".

(** [resp.accounts[0].name]: an index past the end reads [undefined]. *)
Definition first_name (resp : AccountsResponse.t) : Js.Throws (js string) :=
  let! first :=
    Js.member "name"
      match AccountsResponse.accounts resp with
      | [] => Js.undefined
      | account :: _ => Js.val account
      end in
  Js.ret (RawAccount.name first).

(** The callback given to [map], once the promise of
    [getAccounts(account.token)] has settled with [lookup]: the [then]
    handler inside the [try], and the [catch]. *)
Definition entry_of (account : AccountConfig.t)
    (lookup : Js.Throws AccountsResponse.t) : Entry :=
  match (let! resp := lookup in first_name resp) with
  | inr found =>
      {| name := found; token := AccountConfig.token account |}
  | inl _ =>
      {| name := Js.val placeholder; token := AccountConfig.token account |}
  end.

Section Provider.

Variable PS : Type.
Variable getAccounts : PS -> string -> PS * Js.Throws AccountsResponse.t.

(** [Promise.all(Object.values(this.config.accounts).map(...))]: the
    lookups are started in the order of the values, and the array keeps
    that order whatever the order in which they settle. [accounts] is
    [Object.values(this.config.accounts)]. *)
Fixpoint list_accounts (s : PS) (accounts : list AccountConfig.t)
  : PS * list Entry :=
  match accounts with
  | [] => (s, [])
  | account :: rest =>
      let r := getAccounts s (AccountConfig.token account) in
      let listed := list_accounts (fst r) rest in
      (fst listed, entry_of account (snd r) :: snd listed)
  end.

End Provider.

End Listing.

(** ** Further notions *)

(** The number of transactions that a result holds over all its accounts. *)
Definition attached_total (out : list Account.t) : nat :=
  list_sum
    (List.map
       (fun a =>
          match Account.transactions a with
          | Js.val l => length l
          | _ => O
          end)
       out).

(** Some account of the batch has the accountId of the transaction. *)
Definition matched (accounts : list Account.t) (t : Transaction.t) : bool :=
  existsb (fun a => owned_by a t) accounts.

(** The provider resolves every call, each time with no transactions. *)
Definition always_empty {PS : Type}
    (getTransactions :
       PS -> string -> string -> string -> TransactionsRequestOptions.t ->
       PS * Js.Throws TransactionsResponse.t) : Prop :=
  forall s token start end_ options,
    exists page,
      snd (getTransactions s token start end_ options) = inr page
      /\ TransactionsResponse.transactions page = [].

Definition resolved_call (c : Call) : Prop :=
  exists page, response c = inr page.

(** The body posts a public token, be it null. *)
Definition has_token (body : Handshake.Body) : bool :=
  Js.is_defined (Handshake.public_token body).

(** Events that neither settle the promise nor write the store: all but
    an exit or an error post and the exchange callback. *)
Definition is_quiet (ev : Handshake.Event) : bool :=
  match ev with
  | Handshake.PostGetAccessToken body => has_token body
  | Handshake.ExchangeCallback _ _ => false
  | _ => true
  end.

(** Every credential is stored under its own id, for the Plaid integration. *)
Definition well_keyed (config : Config.t) : Prop :=
  forall key credential,
    Config.accounts config !! key = Some credential ->
    AccountConfig.id credential = key
    /\ AccountConfig.integration credential = Plaid.

(** ** Further sample data *)

Module Fixture.

(** A provider that reports one transaction and never delivers it. *)
Definition stall (s : unit) (token start end_ : string)
    (options : TransactionsRequestOptions.t)
  : unit * Js.Throws TransactionsResponse.t :=
  (tt,
   Js.ret
     {| TransactionsResponse.accounts := [];
        TransactionsResponse.transactions := [];
        TransactionsResponse.total_transactions := 1 |}).

(** A provider that stalls for [left] calls and rejects the next. *)
Definition flaky (left : nat) (token start end_ : string)
    (options : TransactionsRequestOptions.t)
  : nat * Js.Throws TransactionsResponse.t :=
  match left with
  | O => (O, Js.throw (Js.ApiError "RATE_LIMIT_EXCEEDED"))
  | S left' => (left', snd (stall tt token start end_ options))
  end.

Definition credential (id token : string) : AccountConfig.t :=
  {| AccountConfig.id := id;
     AccountConfig.integration := Plaid;
     AccountConfig.token := token |}.

(** Lookups that know token ["a"] only. *)
Definition getAccounts (s : unit) (token : string)
  : unit * Js.Throws AccountsResponse.t :=
  (tt,
   if String.eqb token "a"
   then Js.ret
          {| AccountsResponse.accounts :=
               [{| RawAccount.account_id := "acc1";
                   RawAccount.balances := Sample.balances Js.null Js.null;
                   RawAccount.mask := Js.null;
                   RawAccount.name := Js.val "Real Name A";
                   RawAccount.official_name := Js.null;
                   RawAccount.subtype := Js.null;
                   RawAccount.type := Js.null |}] |}
   else Js.throw (Js.ApiError "INVALID_ACCESS_TOKEN")).

Definition rotated : TokenResponse.t :=
  {| TokenResponse.access_token := "accY"; TokenResponse.item_id := "itemX" |}.

End Fixture.

(** * Properties *)

(** ** Record normalizer *)

Lemma or_truthy (a b : js string) : Js.truthy a = true -> a ||| b = a.
Proof. unfold Js.or. intros ->. reflexivity. Qed.

Lemma or_falsy (a b : js string) : Js.truthy a = false -> a ||| b = b.
Proof. unfold Js.or. intros ->. reflexivity. Qed.

Lemma truthy_val (code : string) : code <> "" -> Js.truthy (Js.val code) = true.
Proof.
  intros Hne. simpl. destruct (String.eqb_spec code ""); [contradiction | reflexivity].
Qed.

Lemma or_resolved_from (iso unofficial : js string) :
  resolved_from iso unofficial (iso ||| unofficial).
Proof.
  repeat split.
  - intros code -> Hne. apply or_truthy, truthy_val, Hne.
  - intros [Habs | ->]; apply or_falsy; [| reflexivity].
    destruct iso; simpl in *; congruence.
  - unfold Js.or. destruct (Js.truthy iso); [left | right]; reflexivity.
Qed.

Lemma or_absent (a b : js string) :
  Js.absent a = true -> Js.absent b = true -> Js.absent (a ||| b) = true.
Proof.
  intros Ha Hb. rewrite or_falsy; [exact Hb |].
  destruct a; simpl in *; congruence.
Qed.

(** [toTransaction] returns exactly when the category array and the
    location object are there. *)
Lemma toTransaction_returns parseISO (raw : RawTransaction.t) :
  (exists t, toTransaction parseISO raw = inr t)
  <-> (exists category location,
         RawTransaction.category raw = Js.val category
         /\ RawTransaction.location raw = Js.val location).
Proof.
  unfold toTransaction. split.
  - intros [t Ht].
    destruct (RawTransaction.category raw) as [| |c]; simpl in Ht; try discriminate.
    destruct (RawTransaction.location raw) as [| |l]; simpl in Ht; try discriminate.
    eauto.
  - intros (c & l & -> & ->). simpl. eauto.
Qed.

Lemma toTransaction_inv parseISO (raw : RawTransaction.t) (t : Transaction.t) :
  toTransaction parseISO raw = inr t ->
  exists category location,
    RawTransaction.category raw = Js.val category
    /\ RawTransaction.location raw = Js.val location
    /\ Transaction.currency t
       = RawTransaction.iso_currency_code raw
         ||| RawTransaction.unofficial_currency_code raw
    /\ Transaction.accountId t = RawTransaction.account_id raw
    /\ Transaction.category t = String.concat " - " category
    /\ Transaction.address t = RawLocation.address location
    /\ Transaction.city t = RawLocation.city location
    /\ Transaction.state t = RawLocation.region location
    /\ Transaction.postal_code t = RawLocation.postal_code location
    /\ Transaction.country t = RawLocation.country location
    /\ Transaction.latitude t = RawLocation.lat location
    /\ Transaction.longitude t = RawLocation.lon location.
Proof.
  unfold toTransaction. intros Ht.
  destruct (RawTransaction.category raw) as [| |c]; simpl in Ht; try discriminate.
  destruct (RawTransaction.location raw) as [| |l]; simpl in Ht; try discriminate.
  injection Ht as <-. exists c, l. simpl. repeat split; reflexivity.
Qed.

(** C4. The currency of a normalized account or transaction is the ISO
    code whenever an ISO code is there, that is whenever the field holds
    a non-empty string, also when an unofficial code is there as well;
    it is the unofficial code when the ISO code is missing: null,
    undefined, or the empty string, which is no code; and it is always
    one of the two, never a combination. *)
Theorem currency_resolution :
  (forall raw : RawAccount.t,
     resolved_from
       (RawBalances.iso_currency_code (RawAccount.balances raw))
       (RawBalances.unofficial_currency_code (RawAccount.balances raw))
       (Account.currency (toAccount raw)))
  /\ (forall parseISO (raw : RawTransaction.t) (t : Transaction.t),
        toTransaction parseISO raw = inr t ->
        resolved_from
          (RawTransaction.iso_currency_code raw)
          (RawTransaction.unofficial_currency_code raw)
          (Transaction.currency t)).
Proof.
  split.
  - intros raw. apply or_resolved_from.
  - intros parseISO raw t Ht.
    destruct (toTransaction_inv _ _ _ Ht) as (_ & _ & _ & _ & -> & _).
    apply or_resolved_from.
Qed.

Lemma currency_resolution_witness :
  Account.currency (toAccount (Sample.account "acc1" (Js.val "USD") (Js.val "BTC")))
  = Js.val "USD"
  /\ exists t,
       toTransaction Sample.parseISO
         (Sample.transaction "t1" "acc1" Sample.food (Js.val Sample.location))
       = inr t
       /\ Transaction.currency t = Js.val "USD".
Proof.
  split.
  - apply (proj1 (proj1 currency_resolution
                    (Sample.account "acc1" (Js.val "USD") (Js.val "BTC"))) "USD").
    + reflexivity.
    + discriminate.
  - eexists. split; [reflexivity |].
    eapply (proj1 (proj2 currency_resolution Sample.parseISO
                     (Sample.transaction "t1" "acc1" Sample.food (Js.val Sample.location))
                     _ eq_refl) "USD").
    + reflexivity.
    + discriminate.
Defined.

(** An ISO field that holds the empty string holds no code: the account
    gets the unofficial code. *)
Lemma currency_empty_iso_falls_back :
  let raw := Sample.account "acc1" (Js.val "") (Js.val "BTC") in
  Js.absent (RawBalances.iso_currency_code (RawAccount.balances raw)) = false
  /\ Account.currency (toAccount raw) = Js.val "BTC"
  /\ Account.currency (toAccount raw)
     <> RawBalances.iso_currency_code (RawAccount.balances raw).
Proof. simpl. split; [reflexivity | split; [reflexivity | discriminate]]. Qed.

(** C8 as stated fails for the category: a transaction that the provider
    sends without one is not normalized, reading [join] of null throws.
    The same holds for a transaction without a location object. *)
Lemma missing_category_counterexample :
  toTransaction Sample.parseISO
    (Sample.transaction "t1" "acc1" Js.null (Js.val Sample.location))
  = inl (Js.TypeError "Cannot read property 'join' of null")
  /\ toTransaction Sample.parseISO
       (Sample.transaction "t1" "acc1" Sample.food Js.undefined)
     = inl (Js.TypeError "Cannot read property 'address' of undefined").
Proof. split; reflexivity. Qed.

(** C8, as amended. Normalizing an account always returns, and
    normalizing a transaction returns when its category array and its
    location object are there. In both, a missing mask, official name,
    balances subfield or location subfield gives a missing output field,
    and so do two missing currency codes; no number stands in for it. *)
Theorem missing_fields_stay_missing :
  (forall raw : RawAccount.t,
     let balances := RawAccount.balances raw in
     let a := toAccount raw in
     (Js.absent (RawAccount.mask raw) = true -> Js.absent (Account.mask a) = true)
     /\ (Js.absent (RawAccount.official_name raw) = true ->
         Js.absent (Account.account a) = true)
     /\ (Js.absent (RawBalances.current balances) = true ->
         Js.absent (Account.current a) = true)
     /\ (Js.absent (RawBalances.available balances) = true ->
         Js.absent (Account.available a) = true)
     /\ (Js.absent (RawBalances.limit balances) = true ->
         Js.absent (Account.limit a) = true)
     /\ (Js.absent (RawBalances.iso_currency_code balances) = true ->
         Js.absent (RawBalances.unofficial_currency_code balances) = true ->
         Js.absent (Account.currency a) = true))
  /\ (forall parseISO (raw : RawTransaction.t) category location,
        RawTransaction.category raw = Js.val category ->
        RawTransaction.location raw = Js.val location ->
        exists t,
          toTransaction parseISO raw = inr t
          /\ (Js.absent (RawLocation.address location) = true ->
              Js.absent (Transaction.address t) = true)
          /\ (Js.absent (RawLocation.city location) = true ->
              Js.absent (Transaction.city t) = true)
          /\ (Js.absent (RawLocation.region location) = true ->
              Js.absent (Transaction.state t) = true)
          /\ (Js.absent (RawLocation.postal_code location) = true ->
              Js.absent (Transaction.postal_code t) = true)
          /\ (Js.absent (RawLocation.country location) = true ->
              Js.absent (Transaction.country t) = true)
          /\ (Js.absent (RawLocation.lat location) = true ->
              Js.absent (Transaction.latitude t) = true)
          /\ (Js.absent (RawLocation.lon location) = true ->
              Js.absent (Transaction.longitude t) = true)
          /\ (Js.absent (RawTransaction.iso_currency_code raw) = true ->
              Js.absent (RawTransaction.unofficial_currency_code raw) = true ->
              Js.absent (Transaction.currency t) = true)).
Proof.
  split.
  - intros raw balances a. subst a balances. simpl.
    repeat split; try (intros H; exact H).
    apply or_absent.
  - intros parseISO raw category location Hc Hl.
    destruct (proj2 (toTransaction_returns parseISO raw)) as [t Ht]; [eauto |].
    exists t. split; [exact Ht |].
    destruct (toTransaction_inv _ _ _ Ht)
      as (c & l & Hc' & Hl' & -> & _ & _ & -> & -> & -> & -> & -> & -> & ->).
    assert (l = location) as -> by congruence.
    repeat split; try (intros H; exact H).
    apply or_absent.
Qed.

Lemma missing_fields_stay_missing_witness :
  Js.absent (Account.mask (toAccount (Sample.account "acc1" Js.null Js.undefined))) = true
  /\ Js.absent (Account.currency (toAccount (Sample.account "acc1" Js.null Js.undefined)))
     = true
  /\ exists t,
       toTransaction Sample.parseISO
         (Sample.transaction "t1" "acc1" Sample.food (Js.val Sample.location))
       = inr t
       /\ Js.absent (Transaction.address t) = true.
Proof.
  pose proof (proj1 missing_fields_stay_missing
                (Sample.account "acc1" Js.null Js.undefined)) as Ha.
  simpl in Ha. destruct Ha as (Hmask & _ & _ & _ & _ & Hcur).
  split; [apply Hmask; reflexivity |].
  split; [apply Hcur; reflexivity |].
  destruct (proj2 missing_fields_stay_missing Sample.parseISO
              (Sample.transaction "t1" "acc1" Sample.food (Js.val Sample.location))
              ["Food and Drink"; "Coffee Shop"] Sample.location eq_refl eq_refl)
    as (t & Ht & Haddr & _).
  exists t. split; [exact Ht | apply Haddr; reflexivity].
Defined.

(** ** Reconciler *)

Lemma owned_by_spec (a : Account.t) (t : Transaction.t) :
  owned_by a t = true <-> Transaction.accountId t = Account.accountId a.
Proof. unfold owned_by. apply String.eqb_eq. Qed.

Lemma In_attached (transactions : list Transaction.t) (a : Account.t)
    (t' : Transaction.t) :
  In t' (attached transactions a)
  <-> exists t,
        In t transactions
        /\ Transaction.accountId t = Account.accountId a
        /\ t' = embed a t.
Proof.
  unfold attached. rewrite in_map_iff. split.
  - intros (t & <- & Hin). apply filter_In in Hin as [Hin Hown].
    exists t. rewrite <- owned_by_spec. auto.
  - intros (t & Hin & Hid & ->). exists t. split; [reflexivity |].
    apply filter_In. rewrite owned_by_spec. auto.
Qed.

Lemma attached_nil_iff (transactions : list Transaction.t) (a : Account.t) :
  attached transactions a = []
  <-> forall t, In t transactions ->
                Transaction.accountId t <> Account.accountId a.
Proof.
  split.
  - intros Hnil t Hin Hid.
    assert (In (embed a t) (attached transactions a)) as Hin'
      by (apply In_attached; eauto).
    rewrite Hnil in Hin'. destruct Hin'.
  - intros Hnone. destruct (attached transactions a) as [|t' l] eqn:E; [reflexivity |].
    assert (In t' (attached transactions a)) as Hin by (rewrite E; left; reflexivity).
    apply In_attached in Hin as (t & Hin & Hid & _).
    destruct (Hnone t Hin Hid).
Qed.

Lemma attach_length (accounts : list Account.t) (transactions : list Transaction.t) :
  length (attach accounts transactions) = length accounts.
Proof. unfold attach. apply length_map. Qed.

Lemma attach_nth (accounts : list Account.t) (transactions : list Transaction.t)
    (i : nat) :
  nth_error (attach accounts transactions) i
  = option_map (fun a => with_transactions a (attached transactions a))
      (nth_error accounts i).
Proof. unfold attach. apply nth_error_map. Qed.

Lemma transactions_at_attach (accounts : list Account.t)
    (transactions : list Transaction.t) (i : nat) :
  transactions_at (attach accounts transactions) i
  = option_map (attached transactions) (nth_error accounts i).
Proof.
  unfold transactions_at. rewrite attach_nth.
  destruct (nth_error accounts i); reflexivity.
Qed.

Lemma In_attach (accounts : list Account.t) (transactions : list Transaction.t)
    (a' : Account.t) :
  In a' (attach accounts transactions)
  <-> exists a, In a accounts /\ a' = with_transactions a (attached transactions a).
Proof.
  unfold attach. rewrite in_map_iff. split; intros (a & H1 & H2); eauto.
Qed.

Lemma embed_same_fields (a : Account.t) (t : Transaction.t) :
  same_transaction_fields t (embed a t).
Proof. repeat split. Qed.

(** C9. Attachment gives back the accounts in order, each with every
    field but [transactions] as it was; a transaction in the list of an
    account is one of the normalized transactions with [institution] and
    [account] set from that account and every other field as it was. *)
Theorem attachment_frame (accounts : list Account.t)
    (transactions : list Transaction.t) :
  Forall2
    (fun a a' =>
       same_account_fields a a'
       /\ exists l,
            Account.transactions a' = Js.val l
            /\ forall t', In t' l ->
                 exists t,
                   In t transactions
                   /\ same_transaction_fields t t'
                   /\ Transaction.institution t' = Account.institution a
                   /\ Transaction.account t' = Account.account a)
    accounts (attach accounts transactions).
Proof.
  induction accounts as [|a accounts IH]; simpl.
  - constructor.
  - constructor; [| exact IH].
    split; [repeat split |].
    exists (attached transactions a). split; [reflexivity |].
    intros t' Hin. apply In_attached in Hin as (t & Hin & _ & ->).
    exists t. split; [exact Hin |].
    split; [apply embed_same_fields |]. split; reflexivity.
Qed.

Lemma accountId_nth (accounts : list Account.t) (i : nat) (a : Account.t) :
  nth_error accounts i = Some a ->
  nth_error (List.map Account.accountId accounts) i = Some (Account.accountId a).
Proof. intros H. rewrite nth_error_map, H. reflexivity. Qed.

(** C10. Two accounts of a batch with the same accountId both get every
    transaction bearing that accountId. When the accountIds of the batch
    are pairwise distinct, the lists of two different accounts have no
    accountId in common, and every transaction whose accountId is that of
    some account is in the list of an account: the lists partition the
    matched transactions. *)
Theorem duplicate_account_ids (accounts : list Account.t)
    (transactions : list Transaction.t) :
  let out := attach accounts transactions in
  (forall i j a1 a2 t,
     i <> j ->
     nth_error accounts i = Some a1 ->
     nth_error accounts j = Some a2 ->
     Account.accountId a1 = Account.accountId a2 ->
     In t transactions ->
     Transaction.accountId t = Account.accountId a1 ->
     exists l1 l2,
       transactions_at out i = Some l1
       /\ transactions_at out j = Some l2
       /\ In (embed a1 t) l1
       /\ In (embed a2 t) l2)
  /\ (List.NoDup (List.map Account.accountId accounts) ->
      (forall i j l1 l2 t1 t2,
         transactions_at out i = Some l1 ->
         transactions_at out j = Some l2 ->
         In t1 l1 -> In t2 l2 ->
         Transaction.accountId t1 = Transaction.accountId t2 ->
         i = j)
      /\ (forall t,
            In t transactions ->
            In (Transaction.accountId t) (List.map Account.accountId accounts) ->
            exists i a l,
              nth_error accounts i = Some a
              /\ transactions_at out i = Some l
              /\ In (embed a t) l)).
Proof.
  intros out. subst out. split.
  - intros i j a1 a2 t Hij Hi Hj Hsame Hin Hid.
    exists (attached transactions a1), (attached transactions a2).
    rewrite !transactions_at_attach, Hi, Hj. simpl.
    repeat split; apply In_attached; exists t; repeat split; congruence.
  - intros Hnodup. split.
    + intros i j l1 l2 t1 t2 H1 H2 Hin1 Hin2 Hid.
      rewrite transactions_at_attach in H1, H2.
      destruct (nth_error accounts i) as [a1|] eqn:Ei; [| discriminate].
      destruct (nth_error accounts j) as [a2|] eqn:Ej; [| discriminate].
      simpl in H1, H2. injection H1 as <-. injection H2 as <-.
      apply In_attached in Hin1 as (u1 & _ & Hu1 & ->).
      apply In_attached in Hin2 as (u2 & _ & Hu2 & ->).
      simpl in Hid.
      apply (proj1 (NoDup_nth_error _) Hnodup).
      * rewrite length_map. apply nth_error_Some. congruence.
      * rewrite (accountId_nth _ _ _ Ei), (accountId_nth _ _ _ Ej). congruence.
    + intros t Hin Hmatch.
      apply in_map_iff in Hmatch as (a & Hid & Ha).
      apply In_nth_error in Ha as [i Hi].
      exists i, a, (attached transactions a).
      rewrite transactions_at_attach, Hi. simpl.
      repeat split. apply In_attached. exists t. auto.
Qed.

Lemma duplicate_account_ids_witness :
  let a := toAccount (Sample.account "acc1" (Js.val "USD") Js.null) in
  let t := Sample.plain_transaction "t1" "acc1" in
  exists l1 l2,
    transactions_at (attach [a; a] [t]) 0 = Some l1
    /\ transactions_at (attach [a; a] [t]) 1 = Some l2
    /\ In (embed a t) l1
    /\ In (embed a t) l2.
Proof.
  intros a t.
  apply (proj1 (duplicate_account_ids [a; a] [t]) 0%nat 1%nat a a t).
  - discriminate.
  - reflexivity.
  - reflexivity.
  - reflexivity.
  - left. reflexivity.
  - reflexivity.
Defined.

(** ** Paginated fetcher *)

Lemma offsets_from_length (first : Z) (n : nat) :
  length (offsets_from first n) = n.
Proof. revert first. induction n as [|n IH]; intros first; simpl; auto. Qed.

Lemma offsets_from_closed_form (first : Z) (n : nat) :
  offsets_from first n
  = List.map (fun i => first + 500 * Z.of_nat i) (seq 0 n).
Proof.
  revert first. induction n as [|n IH]; intros first; [reflexivity |].
  simpl offsets_from. rewrite IH. simpl seq. simpl List.map.
  f_equal; [lia |].
  rewrite <- seq_shift, List.map_map. apply List.map_ext. intros i. lia.
Qed.

Lemma request_count (total : Z) :
  0 <= total ->
  Z.to_nat (Z.max 1 (ceil_div total 500)) = S (Z.to_nat ((total - 1) / 500)).
Proof.
  intros Htotal. unfold ceil_div.
  replace (total + 500 - 1) with (total - 1 + 1 * 500) by lia.
  rewrite Z.div_add by lia.
  assert (-1 <= (total - 1) / 500) as Hq.
  { apply Z.div_le_lower_bound; lia. }
  lia.
Qed.

Section PagedFetch.

Variable PS : Type.
Variable getTransactions :
  PS -> string -> string -> string -> TransactionsRequestOptions.t ->
  PS * Js.Throws TransactionsResponse.t.
Variable format : Date -> string -> Js.Throws string.

Lemma paging_eq (fuel : nat) (s : PS) (token start end_ : string)
    (options : TransactionsRequestOptions.t) (accounts : TransactionsResponse.t) :
  paging PS getTransactions fuel s token start end_ options accounts
  = if Z.of_nat (length (TransactionsResponse.transactions accounts))
       <? TransactionsResponse.total_transactions accounts
    then
      match fuel with
      | O => {| provider := s; calls := []; outcome := None |}
      | S fuel' =>
          let options' := next_options options in
          let r := getTransactions s token start end_ options' in
          record_call PS {| request := options'; response := snd r |}
            match snd r with
            | inl e =>
                {| provider := fst r; calls := [];
                   outcome := Some (Js.Rejected e) |}
            | inr next_page =>
                paging PS getTransactions fuel' (fst r) token start end_ options'
                  (concat_page accounts next_page)
            end
      end
    else {| provider := s; calls := []; outcome := Some (Js.Resolved accounts) |}.
Proof. destruct fuel; reflexivity. Qed.

Variable total : Z.
Hypothesis provider_consistent : consistent getTransactions total.

(** The loop, entered after the request at [offset options] with the
    records up to [offset options + 500] accumulated, makes [m] further
    requests and ends with all [total] records in arrival order. *)
Lemma paging_consistent (m : nat) :
  forall fuel s token start end_ options accounts,
    TransactionsRequestOptions.count options = 500 ->
    0 <= TransactionsRequestOptions.offset options ->
    TransactionsResponse.total_transactions accounts = total ->
    Z.of_nat (length (TransactionsResponse.transactions accounts))
    = Z.min (TransactionsRequestOptions.offset options + 500) total ->
    m = Z.to_nat ((total - TransactionsRequestOptions.offset options - 1) / 500) ->
    (m <= fuel)%nat ->
    let p := paging PS getTransactions fuel s token start end_ options accounts in
    exists data,
      outcome p = Some (Js.Resolved data)
      /\ TransactionsResponse.transactions data
         = (TransactionsResponse.transactions accounts
            ++ concat (List.map page_of (calls p)))%list
      /\ TransactionsResponse.accounts data = TransactionsResponse.accounts accounts
      /\ TransactionsResponse.total_transactions data = total
      /\ Z.of_nat (length (TransactionsResponse.transactions data)) = total
      /\ requested_offsets (calls p)
         = offsets_from (TransactionsRequestOptions.offset options + 500) m.
Proof.
  induction m as [|m IH];
    intros fuel s token start end_ options accounts Hcount Hoff Htotal Hlen Hm Hfuel p;
    subst p; rewrite paging_eq.
  - assert (total - TransactionsRequestOptions.offset options - 1 < 500) as Hlt.
    { destruct (Z_lt_le_dec
                  (total - TransactionsRequestOptions.offset options - 1) 500)
        as [H | H]; [exact H |].
      assert (1 <= (total - TransactionsRequestOptions.offset options - 1) / 500)
        by (apply Z.div_le_lower_bound; lia).
      lia. }
    destruct (Z.ltb_spec
                (Z.of_nat (length (TransactionsResponse.transactions accounts)))
                (TransactionsResponse.total_transactions accounts)) as [H | H];
      [lia |].
    exists accounts. simpl. rewrite app_nil_r. repeat split; try assumption. lia.
  - assert (500 <= total - TransactionsRequestOptions.offset options - 1) as Hge.
    { destruct (Z_lt_le_dec
                  (total - TransactionsRequestOptions.offset options - 1) 500)
        as [H | H]; [| exact H].
      assert ((total - TransactionsRequestOptions.offset options - 1) / 500 <= 0)
        by (apply Z.lt_succ_r, Z.div_lt_upper_bound; lia).
      lia. }
    destruct (Z.ltb_spec
                (Z.of_nat (length (TransactionsResponse.transactions accounts)))
                (TransactionsResponse.total_transactions accounts)) as [H | H];
      [| lia].
    destruct fuel as [|fuel]; [lia |].
    cbv zeta.
    destruct (provider_consistent s token start end_ (next_options options))
      as (page & Hpage & Hptotal & Hplen).
    { simpl. exact Hcount. }
    { simpl. lia. }
    rewrite Hpage.
    edestruct (IH fuel (fst (getTransactions s token start end_ (next_options options)))
                  token start end_ (next_options options) (concat_page accounts page))
      as (data & Hout & Htx & Hacc & Hdtotal & Hdlen & Hoffs).
    + simpl. exact Hcount.
    + simpl. lia.
    + simpl. exact Htotal.
    + simpl. rewrite length_app, Nat2Z.inj_add, Hlen, Hplen. simpl. lia.
    + simpl. rewrite Hcount.
      replace (total - TransactionsRequestOptions.offset options - 1)
        with (total - (TransactionsRequestOptions.offset options + 500) - 1 + 1 * 500)
        in Hm by lia.
      rewrite Z.div_add in Hm by lia.
      assert (0 <= (total - (TransactionsRequestOptions.offset options + 500) - 1) / 500)
        by (apply Z.div_pos; lia).
      lia.
    + lia.
    + exists data. simpl. rewrite Hout. split; [reflexivity |].
      split.
      { rewrite Htx. simpl. rewrite <- app_assoc. reflexivity. }
      repeat split; try assumption.
      unfold requested_offsets in *. simpl. rewrite Hoffs. simpl.
      rewrite Hcount. reflexivity.
Qed.

(** C1, as amended. Against a provider that reports [total] on every
    page and serves [min(500, total - k)] records at offset [k], with
    dates that [format] accepts, the fetch resolves once the loop has
    had its iterations; the response holds exactly [total] transactions,
    the requests were made at offsets 0, 500, 1000, ..., there were
    [max(1, ceil(total / 500))] of them, and the transactions are the
    pages concatenated in arrival order. *)
Theorem paged_fetch_complete (fuel : nat) (s : PS)
    (accountConfig : AccountConfig.t) (startDate endDate : Date)
    (start end_ : string) :
  0 <= total ->
  format startDate dateFormat = inr start ->
  format endDate dateFormat = inr end_ ->
  (Z.to_nat ((total - 1) / 500) <= fuel)%nat ->
  let p :=
    fetchPagedTransactions PS getTransactions format fuel s accountConfig
      startDate endDate in
  let n := Z.to_nat (Z.max 1 (ceil_div total 500)) in
  exists data,
    outcome p = Some (Js.Resolved data)
    /\ Z.of_nat (length (TransactionsResponse.transactions data)) = total
    /\ length (calls p) = n
    /\ requested_offsets (calls p)
       = List.map (fun i => 500 * Z.of_nat i) (seq 0 n)
    /\ TransactionsResponse.transactions data
       = concat (List.map page_of (calls p)).
Proof.
  intros Htotal Hstart Hend Hfuel p n. subst p n.
  rewrite request_count by exact Htotal.
  unfold fetchPagedTransactions. rewrite Hstart, Hend. cbv zeta.
  set (options := {| TransactionsRequestOptions.count := 500;
                     TransactionsRequestOptions.offset := 0 |}).
  destruct (provider_consistent s (AccountConfig.token accountConfig) start end_ options)
    as (page & Hpage & Hptotal & Hplen).
  { reflexivity. }
  { simpl. lia. }
  rewrite Hpage.
  edestruct (paging_consistent (Z.to_nat ((total - 1) / 500)) fuel
               (fst (getTransactions s (AccountConfig.token accountConfig)
                       start end_ options))
               (AccountConfig.token accountConfig) start end_ options page)
    as (data & Hout & Htx & _ & _ & Hdlen & Hoffs).
  - reflexivity.
  - simpl. lia.
  - exact Hptotal.
  - rewrite Hplen. simpl. lia.
  - simpl. f_equal. f_equal. lia.
  - exact Hfuel.
  - exists data.
    set (first := {| request := options; response := inr page |}).
    set (rest := paging PS getTransactions fuel _ _ start end_ options page) in *.
    change (outcome (record_call PS first rest)) with (outcome rest).
    change (calls (record_call PS first rest)) with (first :: calls rest).
    assert (requested_offsets (first :: calls rest)
            = offsets_from 0 (S (Z.to_nat ((total - 1) / 500)))) as Hall.
    { unfold requested_offsets in *. simpl. rewrite Hoffs. reflexivity. }
    split; [exact Hout |].
    split; [exact Hdlen |].
    split.
    { rewrite <- (offsets_from_length 0 (S (Z.to_nat ((total - 1) / 500)))).
      rewrite <- Hall. unfold requested_offsets. rewrite length_map. reflexivity. }
    split.
    { rewrite Hall, offsets_from_closed_form. apply List.map_ext. intros i. lia. }
    rewrite Htx. reflexivity.
Qed.

End PagedFetch.

Lemma serve_consistent (accounts : list RawAccount.t)
    (ledger : list RawTransaction.t) :
  consistent (Sample.serve accounts ledger) (Z.of_nat (length ledger)).
Proof.
  intros s token start end_ options Hcount Hoff.
  eexists. split; [reflexivity |]. split; [reflexivity |].
  simpl. rewrite length_take, length_drop, Hcount. lia.
Qed.

Lemma paged_fetch_complete_witness :
  let p :=
    fetchPagedTransactions unit (Sample.serve [] (Sample.ledger 1200))
      Sample.format 2 tt Sample.accountConfig (Some 0) (Some 0) in
  exists data,
    outcome p = Some (Js.Resolved data)
    /\ Z.of_nat (length (TransactionsResponse.transactions data)) = 1200
    /\ length (calls p) = Z.to_nat (Z.max 1 (ceil_div 1200 500))
    /\ requested_offsets (calls p)
       = List.map (fun i => 500 * Z.of_nat i)
           (seq 0 (Z.to_nat (Z.max 1 (ceil_div 1200 500))))
    /\ TransactionsResponse.transactions data
       = concat (List.map page_of (calls p)).
Proof.
  apply (paged_fetch_complete unit (Sample.serve [] (Sample.ledger 1200))
           Sample.format 1200 (serve_consistent [] (Sample.ledger 1200))
           2%nat tt Sample.accountConfig (Some 0) (Some 0)
           "2020-01-15" "2020-01-15").
  - lia.
  - reflexivity.
  - reflexivity.
  - vm_compute. lia.
Defined.

(** C1 as stated fails for an account without transactions in the date
    range: the provider is consistent with a total of 0, and the fetch
    makes one request, at offset 0, where [ceil(0 / 500)] is 0. *)
Lemma paged_fetch_zero_total_counterexample :
  let p :=
    fetchPagedTransactions unit (Sample.serve [] []) Sample.format 5 tt
      Sample.accountConfig (Some 0) (Some 0) in
  consistent (Sample.serve [] []) 0
  /\ requested_offsets (calls p) = [0]
  /\ length (calls p) <> Z.to_nat (ceil_div 0 500).
Proof.
  split; [exact (serve_consistent [] []) |].
  split; [reflexivity |].
  vm_compute. discriminate.
Qed.

(** ** The per-account pipeline *)

Section FetchAccount.

Variable PS : Type.
Variable getTransactions :
  PS -> string -> string -> string -> TransactionsRequestOptions.t ->
  PS * Js.Throws TransactionsResponse.t.
Variable format : Date -> string -> Js.Throws string.
Variable parseISO : string -> Date.
Variable subMonths : Date -> Z -> Date.
Variable now : Date.

Variable fuel : nat.
Variable s : PS.
Variable accountConfig : AccountConfig.t.
Variables startDate endDate : Date.

Local Abbreviation p :=
  (fetchPagedTransactions PS getTransactions format fuel s accountConfig
     startDate endDate).
Local Abbreviation f :=
  (fetchAccount PS getTransactions format parseISO subMonths now fuel s
     accountConfig startDate endDate).

Lemma fetchAccount_rejected (e : Js.Error) :
  outcome p = Some (Js.Rejected e) ->
  result f = Some (Js.Resolved [])
  /\ exists before, log f = (before ++ [failure_entry accountConfig e])%list.
Proof.
  unfold fetchAccount. intros ->. simpl. eauto.
Qed.

Lemma fetchAccount_threw (data : TransactionsResponse.t) (e : Js.Error) :
  outcome p = Some (Js.Resolved data) ->
  normalize_and_attach parseISO data = inl e ->
  result f = Some (Js.Resolved [])
  /\ exists before, log f = (before ++ [failure_entry accountConfig e])%list.
Proof.
  unfold fetchAccount. intros -> ->. simpl. eauto.
Qed.

Lemma fetchAccount_returned (data : TransactionsResponse.t)
    (accounts : list Account.t) :
  outcome p = Some (Js.Resolved data) ->
  normalize_and_attach parseISO data = inr accounts ->
  result f = Some (Js.Resolved accounts).
Proof.
  unfold fetchAccount. intros -> ->. reflexivity.
Qed.

(** C2. [fetchAccount] never rejects. When the paged fetch rejects, or
    when normalizing and attaching what it fetched throws, the error is
    logged under the id of the account and the promise resolves with
    the empty list. *)
Theorem fetchAccount_isolates_failures :
  (forall e, result f <> Some (Js.Rejected e))
  /\ (forall e,
        outcome p = Some (Js.Rejected e) ->
        result f = Some (Js.Resolved [])
        /\ exists before, log f = (before ++ [failure_entry accountConfig e])%list)
  /\ (forall data e,
        outcome p = Some (Js.Resolved data) ->
        normalize_and_attach parseISO data = inl e ->
        result f = Some (Js.Resolved [])
        /\ exists before, log f = (before ++ [failure_entry accountConfig e])%list).
Proof.
  split; [| split; [exact fetchAccount_rejected | exact fetchAccount_threw]].
  intros e. unfold fetchAccount.
  destruct (outcome _) as [[data | e'] |]; simpl; try discriminate.
  destruct (normalize_and_attach parseISO data); discriminate.
Qed.

(** C3. When the paged fetch resolves and every transaction normalizes,
    [fetchAccount] resolves with one account per raw account, in order.
    A transaction in the list of an account bears the accountId of that
    account; a normalized transaction whose accountId is that of no
    account leaves no transaction with its accountId in any list; and an
    account that no transaction matches is in the result with the empty
    list. *)
Theorem join_correctness (data : TransactionsResponse.t)
    (transactions : list Transaction.t) :
  outcome p = Some (Js.Resolved data) ->
  Js.map_throws (toTransaction parseISO) (TransactionsResponse.transactions data)
  = inr transactions ->
  exists out,
    result f = Some (Js.Resolved out)
    /\ length out = length (TransactionsResponse.accounts data)
    /\ (forall a l t,
          In a out -> Account.transactions a = Js.val l -> In t l ->
          Transaction.accountId t = Account.accountId a)
    /\ (forall t,
          In t transactions ->
          (forall raw, In raw (TransactionsResponse.accounts data) ->
                       RawAccount.account_id raw <> Transaction.accountId t) ->
          forall a l t',
            In a out -> Account.transactions a = Js.val l -> In t' l ->
            Transaction.accountId t' <> Transaction.accountId t)
    /\ (forall i raw,
          nth_error (TransactionsResponse.accounts data) i = Some raw ->
          exists a,
            nth_error out i = Some a
            /\ same_account_fields (toAccount raw) a
            /\ ((forall t, In t transactions ->
                           Transaction.accountId t <> RawAccount.account_id raw) ->
                Account.transactions a = Js.val [])).
Proof.
  intros Hp Hnorm.
  exists (attach (List.map toAccount (TransactionsResponse.accounts data)) transactions).
  split.
  { apply (fetchAccount_returned data); [exact Hp |].
    unfold normalize_and_attach. rewrite Hnorm. reflexivity. }
  split.
  { rewrite attach_length, length_map. reflexivity. }
  split.
  { intros a l t Ha Hl Ht.
    apply In_attach in Ha as (a0 & _ & ->). simpl in Hl. injection Hl as <-.
    apply In_attached in Ht as (t0 & _ & Hid & ->). exact Hid. }
  split.
  { intros t Ht Hnone a l t' Ha Hl Ht' Hid.
    apply In_attach in Ha as (a0 & Ha0 & ->). simpl in Hl. injection Hl as <-.
    apply In_attached in Ht' as (t0 & _ & Hid0 & ->). simpl in Hid.
    apply in_map_iff in Ha0 as (raw & <- & Hraw).
    apply (Hnone raw Hraw). simpl in Hid0. congruence. }
  intros i raw Hraw.
  exists (with_transactions (toAccount raw) (attached transactions (toAccount raw))).
  split.
  { rewrite attach_nth, nth_error_map, Hraw. reflexivity. }
  split; [repeat split |].
  intros Hnone. simpl. f_equal. apply attached_nil_iff. exact Hnone.
Qed.

End FetchAccount.

Lemma fetchAccount_isolates_failures_witness :
  result
    (fetchAccount unit Sample.refuse Sample.format Sample.parseISO
       Sample.subMonths Sample.now 5 tt Sample.accountConfig (Some 0) (Some 0))
  = Some (Js.Resolved [])
  /\ result
       (fetchAccount unit
          (Sample.serve []
             [Sample.transaction "t1" "acc1" Js.null (Js.val Sample.location)])
          Sample.format Sample.parseISO Sample.subMonths Sample.now 5 tt
          Sample.accountConfig (Some 0) (Some 0))
     = Some (Js.Resolved []).
Proof.
  split.
  - apply (proj1 (proj2 (fetchAccount_isolates_failures unit Sample.refuse
                           Sample.format Sample.parseISO Sample.subMonths
                           Sample.now 5 tt Sample.accountConfig (Some 0) (Some 0)))
             (Js.ApiError "ITEM_LOGIN_REQUIRED")).
    reflexivity.
  - eapply (proj2 (proj2 (fetchAccount_isolates_failures unit
                            (Sample.serve []
                               [Sample.transaction "t1" "acc1" Js.null
                                  (Js.val Sample.location)])
                            Sample.format Sample.parseISO Sample.subMonths
                            Sample.now 5 tt Sample.accountConfig (Some 0) (Some 0)))).
    + reflexivity.
    + reflexivity.
Defined.

Lemma join_correctness_witness :
  exists out,
    result
      (fetchAccount unit
         (Sample.serve
            [Sample.account "acc1" (Js.val "USD") Js.null;
             Sample.account "acc2" Js.null (Js.val "BTC")]
            [Sample.transaction "t1" "acc1" Sample.food (Js.val Sample.location);
             Sample.transaction "t2" "gone" Sample.food (Js.val Sample.location)])
         Sample.format Sample.parseISO Sample.subMonths Sample.now 5 tt
         Sample.accountConfig (Some 0) (Some 0))
    = Some (Js.Resolved out)
    /\ length out = 2%nat.
Proof.
  edestruct (join_correctness unit
               (Sample.serve
                  [Sample.account "acc1" (Js.val "USD") Js.null;
                   Sample.account "acc2" Js.null (Js.val "BTC")]
                  [Sample.transaction "t1" "acc1" Sample.food (Js.val Sample.location);
                   Sample.transaction "t2" "gone" Sample.food (Js.val Sample.location)])
               Sample.format Sample.parseISO Sample.subMonths Sample.now 5 tt
               Sample.accountConfig (Some 0) (Some 0))
    as (out & Hout & Hlen & _).
  - reflexivity.
  - reflexivity.
  - exists out. split; [exact Hout | exact Hlen].
Defined.

(** ** Exchange server *)

Lemma savePublicToken_present (response : TokenResponse.t) (st : Handshake.State) :
  Handshake.savePublicToken (Js.val response) st
  = inr (Handshake.set_config
           {| Config.accounts :=
                <[TokenResponse.item_id response := saved_account response]>
                  (Config.accounts (Handshake.store st)) |}
           st).
Proof. reflexivity. Qed.

Lemma savePublicToken_absent (tokenResponse : js TokenResponse.t)
    (st : Handshake.State) :
  Js.absent tokenResponse = true ->
  exists e, Handshake.savePublicToken tokenResponse st = inl e.
Proof. destruct tokenResponse; simpl; intros H; [eauto | eauto | discriminate]. Qed.

Lemma exchange_callback_store (error : js Js.Error)
    (tokenResponse : js TokenResponse.t) (st : Handshake.State) :
  Handshake.store (Handshake.exchange_callback error tokenResponse st)
  = match tokenResponse with
    | Js.val response =>
        {| Config.accounts :=
             <[TokenResponse.item_id response := saved_account response]>
               (Config.accounts (Handshake.store st)) |}
    | _ => Handshake.store st
    end.
Proof.
  unfold Handshake.exchange_callback.
  destruct tokenResponse; simpl; handshake_cases; reflexivity.
Qed.

Lemma exchange_callback_server (error : js Js.Error)
    (tokenResponse : js TokenResponse.t) (st : Handshake.State) :
  Handshake.listening (Handshake.exchange_callback error tokenResponse st)
  = Handshake.listening st
  /\ Handshake.close_calls (Handshake.exchange_callback error tokenResponse st)
     = Handshake.close_calls st.
Proof.
  unfold Handshake.exchange_callback.
  destruct tokenResponse; simpl; handshake_cases; split; reflexivity.
Qed.

Lemma get_access_token_frame (body : Handshake.Body) (st : Handshake.State) :
  Handshake.store (Handshake.get_access_token body st) = Handshake.store st
  /\ Handshake.listening (Handshake.get_access_token body st)
     = Handshake.listening st
  /\ Handshake.close_calls (Handshake.get_access_token body st)
     = Handshake.close_calls st.
Proof.
  unfold Handshake.get_access_token. handshake_cases; repeat split.
Qed.

Lemma step_server (st st' : Handshake.State) (ev : Handshake.Event) :
  Handshake.step st ev = Some st' ->
  Handshake.listening st'
  = (if Handshake.is_done ev then false else Handshake.listening st)
  /\ Handshake.close_calls st'
     = if Handshake.is_done ev
       then S (Handshake.close_calls st)
       else Handshake.close_calls st.
Proof.
  destruct ev as [| body | | token | | error tokenResponse]; simpl;
    try (intros [= <-]; split; reflexivity).
  - intros [= <-]. destruct (get_access_token_frame body st) as (_ & H1 & H2).
    split; assumption.
  - destruct (Handshake.exchanging st) as [|n]; [discriminate |].
    intros [= <-].
    destruct (exchange_callback_server error tokenResponse
                (Handshake.set_exchanging n st)) as [H1 H2].
    split; assumption.
Qed.

Lemma step_settled (st st' : Handshake.State) (ev : Handshake.Event) :
  Handshake.step st ev = Some st' ->
  Handshake.promise st <> Handshake.Pending ->
  Handshake.promise st' = Handshake.promise st.
Proof.
  destruct ev as [| body | | token | | error tokenResponse]; simpl;
    try (intros [= <-] _; reflexivity).
  - intros [= <-] Hsettled. unfold Handshake.get_access_token.
    destruct (Handshake.promise st) eqn:E; [contradiction | |];
      destruct (Js.is_defined _); simpl; rewrite ?E; try reflexivity;
      destruct (Js.is_defined _); simpl; rewrite E; reflexivity.
  - destruct (Handshake.exchanging st) as [|n]; [discriminate |].
    intros [= <-] Hsettled. unfold Handshake.exchange_callback.
    destruct (Handshake.promise st) eqn:E; [contradiction | |];
      destruct error, tokenResponse; simpl; rewrite ?E; reflexivity.
Qed.

Lemma run_settled (evs : list Handshake.Event) :
  forall st st',
    Handshake.run st evs = Some st' ->
    Handshake.promise st <> Handshake.Pending ->
    Handshake.promise st' = Handshake.promise st.
Proof.
  induction evs as [|ev evs IH]; simpl; intros st st' Hrun Hsettled.
  - injection Hrun as <-. reflexivity.
  - destruct (Handshake.step st ev) as [st1|] eqn:E; [| discriminate].
    pose proof (step_settled _ _ _ E Hsettled) as H1.
    rewrite <- H1. apply IH; [exact Hrun |]. rewrite H1. exact Hsettled.
Qed.

(** C5 as stated fails for the exit signal: the handshake that receives
    it resolves its promise with the logged cancellation message and
    does not reject. *)
Lemma exit_resolves_counterexample :
  exists st',
    Handshake.run (Handshake.addAccount Sample.no_accounts)
      [Handshake.PostGetAccessToken Sample.exit_body]
    = Some st'
    /\ Handshake.promise st'
       = Handshake.Fulfilled
           (Log.mk Log.Info "Plaid authentication cancelled." Handshake.NoData)
    /\ forall reason, Handshake.promise st' <> Handshake.Rejected reason.
Proof.
  eexists. split; [reflexivity |]. split; [reflexivity |]. discriminate.
Qed.

(** C5, as amended. While the promise of [addAccount] is pending: an
    exit signal resolves it with the logged cancellation message; a
    failed exchange rejects it with the logged exchange error; an error
    reported by the widget rejects it with the logged authentication
    error. Once settled, the promise keeps its state whatever follows. *)
Theorem handshake_settlement (st : Handshake.State) :
  Handshake.promise st = Handshake.Pending ->
  (forall body,
     Handshake.is_exit body = true ->
     let entry :=
       Log.mk Log.Info "Plaid authentication cancelled." Handshake.NoData in
     exists st',
       Handshake.step st (Handshake.PostGetAccessToken body) = Some st'
       /\ Handshake.promise st' = Handshake.Fulfilled entry
       /\ In entry (Handshake.log st'))
  /\ (forall n error tokenResponse,
        Handshake.exchanging st = S n ->
        Js.not_nullish error = true ->
        let entry :=
          Log.mk Log.Error "Encountered error exchanging Plaid public token."
            (Handshake.ExchangeError error) in
        exists st',
          Handshake.step st (Handshake.ExchangeCallback error tokenResponse)
          = Some st'
          /\ Handshake.promise st' = Handshake.Rejected entry
          /\ In entry (Handshake.log st'))
  /\ (forall body,
        Handshake.is_client_error body = true ->
        let entry :=
          Log.mk Log.Error "Encountered error during authentication."
            (Handshake.ClientError (Handshake.error body)) in
        exists st',
          Handshake.step st (Handshake.PostGetAccessToken body) = Some st'
          /\ Handshake.promise st' = Handshake.Rejected entry
          /\ In entry (Handshake.log st'))
  /\ (forall ev evs st1 st',
        Handshake.step st ev = Some st1 ->
        Handshake.promise st1 <> Handshake.Pending ->
        Handshake.run st1 evs = Some st' ->
        Handshake.promise st' = Handshake.promise st1).
Proof.
  intros Hpending. repeat split.
  - intros body Hexit entry. eexists. split; [reflexivity |].
    unfold Handshake.is_exit in Hexit. apply andb_prop in Hexit as [Hno Hexit].
    apply negb_true_iff in Hno.
    unfold Handshake.get_access_token. rewrite Hno, Hexit. simpl.
    rewrite Hpending. split; [reflexivity |].
    apply in_or_app. right. left. reflexivity.
  - intros n error tokenResponse Hn Herr entry. simpl. rewrite Hn.
    eexists. split; [reflexivity |].
    unfold Handshake.exchange_callback. rewrite Herr.
    destruct tokenResponse; simpl; rewrite Hpending;
      (split; [reflexivity |]); rewrite ?in_app_iff; simpl; auto.
  - intros body Hclient entry. eexists. split; [reflexivity |].
    unfold Handshake.is_client_error in Hclient.
    apply andb_prop in Hclient as [Hno Hnoexit].
    apply negb_true_iff in Hno. apply negb_true_iff in Hnoexit.
    unfold Handshake.get_access_token. rewrite Hno, Hnoexit. simpl.
    rewrite Hpending. split; [reflexivity |].
    apply in_or_app. right. left. reflexivity.
  - intros ev evs st1 st' _ Hsettled Hrun.
    apply (run_settled evs st1 st' Hrun Hsettled).
Qed.

Lemma handshake_settlement_witness :
  exists st',
    Handshake.step Sample.exchanging
      (Handshake.ExchangeCallback (Js.val (Js.ApiError "INVALID_PUBLIC_TOKEN"))
         Js.undefined)
    = Some st'
    /\ Handshake.promise st'
       = Handshake.Rejected
           (Log.mk Log.Error "Encountered error exchanging Plaid public token."
              (Handshake.ExchangeError (Js.val (Js.ApiError "INVALID_PUBLIC_TOKEN")))).
Proof.
  destruct (proj1 (proj2 (handshake_settlement Sample.exchanging eq_refl))
              0%nat (Js.val (Js.ApiError "INVALID_PUBLIC_TOKEN")) Js.undefined
              eq_refl eq_refl)
    as (st' & Hstep & Hpromise & _).
  exists st'. split; [exact Hstep | exact Hpromise].
Defined.

(** One step of a handshake writes the credential store exactly when the
    exchange callback brings a token response. A callback without an
    error maps the item id of its response to its id, the Plaid
    integration and the access token, over any earlier entry; a post to
    [/get_access_token], be it an exit or a reported error, and a failed
    exchange that brings no token response leave the store as it was. *)
Theorem handshake_store (st st' : Handshake.State) (ev : Handshake.Event) :
  Handshake.step st ev = Some st' ->
  (forall error response,
     ev = Handshake.ExchangeCallback error (Js.val response) ->
     Js.absent error = true ->
     Config.accounts (Handshake.store st')
     = <[TokenResponse.item_id response :=
           {| AccountConfig.id := TokenResponse.item_id response;
              AccountConfig.integration := Plaid;
              AccountConfig.token := TokenResponse.access_token response |}]>
         (Config.accounts (Handshake.store st)))
  /\ (forall body,
        ev = Handshake.PostGetAccessToken body ->
        Handshake.store st' = Handshake.store st)
  /\ (forall error tokenResponse,
        ev = Handshake.ExchangeCallback error tokenResponse ->
        Js.not_nullish error = true ->
        Js.absent tokenResponse = true ->
        Handshake.store st' = Handshake.store st)
  /\ (Handshake.store st' <> Handshake.store st ->
      exists error response,
        ev = Handshake.ExchangeCallback error (Js.val response)).
Proof.
  intros Hstep. repeat split.
  - intros error response -> _. simpl in Hstep.
    destruct (Handshake.exchanging st) as [|n]; [discriminate |].
    injection Hstep as <-. rewrite exchange_callback_store. reflexivity.
  - intros body ->. simpl in Hstep. injection Hstep as <-.
    apply get_access_token_frame.
  - intros error tokenResponse -> _ Habsent. simpl in Hstep.
    destruct (Handshake.exchanging st) as [|n]; [discriminate |].
    injection Hstep as <-. rewrite exchange_callback_store.
    destruct tokenResponse; [reflexivity | reflexivity | discriminate].
  - intros Hchanged.
    destruct ev as [| body | | token | | error tokenResponse]; simpl in Hstep;
      try (injection Hstep as <-; contradiction Hchanged; reflexivity).
    + injection Hstep as <-. contradiction Hchanged. apply get_access_token_frame.
    + destruct (Handshake.exchanging st) as [|n]; [discriminate |].
      injection Hstep as <-. rewrite exchange_callback_store in Hchanged.
      destruct tokenResponse as [| | response];
        [contradiction Hchanged; reflexivity
        | contradiction Hchanged; reflexivity
        | eauto].
Qed.

Lemma handshake_store_witness :
  exists st',
    Handshake.step Sample.exchanging
      (Handshake.ExchangeCallback Js.null (Js.val Sample.tokenResponse))
    = Some st'
    /\ Config.accounts (Handshake.store st')
       = <["itemX" :=
             {| AccountConfig.id := "itemX";
                AccountConfig.integration := Plaid;
                AccountConfig.token := "accX" |}]>
           (Config.accounts (Handshake.store Sample.exchanging)).
Proof.
  eexists. split; [reflexivity |].
  apply (proj1 (handshake_store Sample.exchanging _
                  (Handshake.ExchangeCallback Js.null (Js.val Sample.tokenResponse))
                  eq_refl)
           Js.null Sample.tokenResponse eq_refl eq_refl).
Defined.


(** C7 as stated fails on the cancel path and on the success path: after
    the exit signal, and after a successful exchange, the server still
    listens and [server.close()] has not been called. *)
Lemma listener_left_open_counterexample :
  (exists st',
     Handshake.run (Handshake.addAccount Sample.no_accounts)
       [Handshake.PostGetAccessToken Sample.exit_body]
     = Some st'
     /\ Handshake.listening st' = true
     /\ Handshake.close_calls st' = 0%nat)
  /\ (exists st',
        Handshake.run (Handshake.addAccount Sample.no_accounts)
          [Handshake.PostGetAccessToken Sample.token_body;
           Handshake.ExchangeCallback Js.null (Js.val Sample.tokenResponse)]
        = Some st'
        /\ Handshake.listening st' = true
        /\ Handshake.close_calls st' = 0%nat).
Proof.
  split; eexists; (split; [reflexivity |]); split; reflexivity.
Qed.

(** C7, as amended. The server is closed by the handler of [/done] and by
    nothing else: over any run of a handshake, [server.close()] is called
    once for each done post, and the server listens at the end exactly
    when it listened at the start and no done post came. A handshake thus
    stops listening once when the widget posts done once, on whichever
    path it got there. *)
Theorem listener_closed_by_done (evs : list Handshake.Event) :
  forall st st',
    Handshake.run st evs = Some st' ->
    Handshake.close_calls st'
    = (Handshake.close_calls st + length (List.filter Handshake.is_done evs))%nat
    /\ Handshake.listening st'
       = Handshake.listening st
         && (length (List.filter Handshake.is_done evs) =? 0)%nat.
Proof.
  induction evs as [|ev evs IH]; simpl; intros st st' Hrun.
  - injection Hrun as <-. split; [lia |]. rewrite andb_true_r. reflexivity.
  - destruct (Handshake.step st ev) as [st1|] eqn:E; [| discriminate].
    destruct (step_server _ _ _ E) as [Hl Hc].
    destruct (IH st1 st' Hrun) as [IHc IHl].
    rewrite IHc, IHl, Hl, Hc.
    destruct (Handshake.is_done ev); simpl.
    + split; [lia |]. rewrite andb_false_r. reflexivity.
    + split; reflexivity.
Qed.

Lemma listener_closed_by_done_witness :
  exists st',
    Handshake.run (Handshake.addAccount Sample.no_accounts)
      [Handshake.PostGetAccessToken Sample.exit_body; Handshake.PostDone]
    = Some st'
    /\ Handshake.close_calls st' = 1%nat
    /\ Handshake.listening st' = false.
Proof.
  eexists. split; [reflexivity |].
  apply (listener_closed_by_done
           [Handshake.PostGetAccessToken Sample.exit_body; Handshake.PostDone]
           (Handshake.addAccount Sample.no_accounts) _ eq_refl).
Defined.

(** * Further properties *)

(** ** Paginated fetcher, against any provider *)

Section PagedRuns.

Variable PS : Type.
Variable getTransactions :
  PS -> string -> string -> string -> TransactionsRequestOptions.t ->
  PS * Js.Throws TransactionsResponse.t.
Variable format : Date -> string -> Js.Throws string.

Lemma paging_shape (fuel : nat) :
  forall s token start end_ options accounts,
    TransactionsRequestOptions.count options = 500 ->
    let p := paging PS getTransactions fuel s token start end_ options accounts in
    requested_offsets (calls p)
    = offsets_from (TransactionsRequestOptions.offset options + 500)
        (length (calls p))
    /\ Forall (fun c => TransactionsRequestOptions.count (request c) = 500)
         (calls p).
Proof.
  induction fuel as [|fuel IH]; intros s token start end_ options accounts Hcount p;
    subst p; rewrite paging_eq;
    destruct (_ <? _); try (split; [reflexivity | constructor]).
  cbv zeta.
  set (r := getTransactions s token start end_ (next_options options)).
  destruct (snd r) as [e | page].
  - simpl. rewrite Hcount. split; [reflexivity |].
    constructor; [exact Hcount | constructor].
  - destruct (IH (fst r) token start end_ (next_options options)
                (concat_page accounts page) Hcount) as [Hoffs Hall].
    simpl in Hoffs. rewrite Hcount in Hoffs.
    unfold requested_offsets in *. simpl. rewrite Hoffs, Hcount.
    split; [reflexivity |].
    constructor; [exact Hcount | exact Hall].
Qed.

Lemma paging_resolved (fuel : nat) :
  forall s token start end_ options accounts data,
    outcome (paging PS getTransactions fuel s token start end_ options accounts)
    = Some (Js.Resolved data) ->
    let p := paging PS getTransactions fuel s token start end_ options accounts in
    TransactionsResponse.accounts data = TransactionsResponse.accounts accounts
    /\ TransactionsResponse.total_transactions data
       = TransactionsResponse.total_transactions accounts
    /\ TransactionsResponse.transactions data
       = (TransactionsResponse.transactions accounts
          ++ concat (List.map page_of (calls p)))%list
    /\ Forall resolved_call (calls p)
    /\ TransactionsResponse.total_transactions data
       <= Z.of_nat (length (TransactionsResponse.transactions data)).
Proof.
  induction fuel as [|fuel IH]; intros s token start end_ options accounts data;
    rewrite paging_eq;
    destruct (Z.ltb_spec
                (Z.of_nat (length (TransactionsResponse.transactions accounts)))
                (TransactionsResponse.total_transactions accounts)) as [Hlt | Hge];
    try discriminate;
    try (simpl; intros [= <-]; rewrite app_nil_r;
         repeat split; [constructor | exact Hge]).
  cbv zeta.
  set (r := getTransactions s token start end_ (next_options options)).
  destruct (snd r) as [e | page] eqn:Er; [discriminate |].
  intros Hout.
  change (outcome (paging PS getTransactions fuel (fst r) token start end_
                     (next_options options) (concat_page accounts page))
          = Some (Js.Resolved data)) in Hout.
  destruct (IH _ _ _ _ _ _ _ Hout) as (Ha & Ht & Htx & Hall & Hle).
  simpl in Ha, Ht, Htx.
  repeat split; try assumption.
  - simpl. rewrite Htx, <- app_assoc. reflexivity.
  - simpl. constructor; [exists page; reflexivity | exact Hall].
Qed.

Lemma paging_rejected (fuel : nat) :
  forall s token start end_ options accounts e,
    outcome (paging PS getTransactions fuel s token start end_ options accounts)
    = Some (Js.Rejected e) ->
    exists before last,
      calls (paging PS getTransactions fuel s token start end_ options accounts)
      = (before ++ [last])%list
      /\ response last = inl e
      /\ Forall resolved_call before.
Proof.
  induction fuel as [|fuel IH]; intros s token start end_ options accounts e;
    rewrite paging_eq; destruct (_ <? _); try discriminate.
  cbv zeta.
  set (r := getTransactions s token start end_ (next_options options)).
  destruct (snd r) as [e' | page] eqn:Er.
  - simpl. intros [= <-].
    exists [], {| request := next_options options; response := inl e' |}.
    repeat split. constructor.
  - intros Hout.
    change (outcome (paging PS getTransactions fuel (fst r) token start end_
                       (next_options options) (concat_page accounts page))
            = Some (Js.Rejected e)) in Hout.
    destruct (IH _ _ _ _ _ _ _ Hout) as (before & last & Hcalls & Hlast & Hall).
    exists ({| request := next_options options; response := inr page |} :: before),
      last.
    simpl. rewrite Hcalls. repeat split; [exact Hlast |].
    constructor; [exists page; reflexivity | exact Hall].
Qed.

Lemma paging_stalls (Hempty : always_empty getTransactions) (fuel : nat) :
  forall s token start end_ options accounts,
    Z.of_nat (length (TransactionsResponse.transactions accounts))
    < TransactionsResponse.total_transactions accounts ->
    let p := paging PS getTransactions fuel s token start end_ options accounts in
    outcome p = None /\ length (calls p) = fuel.
Proof.
  induction fuel as [|fuel IH]; intros s token start end_ options accounts Hlt p;
    subst p; rewrite paging_eq;
    destruct (Z.ltb_spec
                (Z.of_nat (length (TransactionsResponse.transactions accounts)))
                (TransactionsResponse.total_transactions accounts)) as [_ | Hge];
    try lia; [split; reflexivity |].
  cbv zeta.
  destruct (Hempty s token start end_ (next_options options))
    as (page & Hpage & Hnone).
  rewrite Hpage.
  destruct (IH (fst (getTransactions s token start end_ (next_options options)))
              token start end_ (next_options options) (concat_page accounts page))
    as [Hout Hlen].
  { simpl. rewrite Hnone, app_nil_r. exact Hlt. }
  simpl. rewrite Hout, Hlen. split; reflexivity.
Qed.

Variable fuel : nat.
Variable s : PS.
Variable accountConfig : AccountConfig.t.
Variables startDate endDate : Date.

Local Abbreviation p :=
  (fetchPagedTransactions PS getTransactions format fuel s accountConfig
     startDate endDate).

(** X1. Whatever the provider answers and however the fetch ends, every
    request asks for 500 records and the requests are made at offsets
    0, 500, 1000, ... without a gap or a repeat. *)
Theorem paged_requests_in_steps_of_500 :
  Forall (fun c => TransactionsRequestOptions.count (request c) = 500) (calls p)
  /\ requested_offsets (calls p)
     = List.map (fun i => 500 * Z.of_nat i) (seq 0 (length (calls p))).
Proof.
  assert (Forall (fun c => TransactionsRequestOptions.count (request c) = 500)
            (calls p)
          /\ requested_offsets (calls p) = offsets_from 0 (length (calls p)))
    as [Hall Hoffs].
  { unfold fetchPagedTransactions.
    destruct (format startDate dateFormat) as [e | start];
      [split; [constructor | reflexivity] |].
    destruct (format endDate dateFormat) as [e | end_];
      [split; [constructor | reflexivity] |].
    cbv zeta.
    set (options := {| TransactionsRequestOptions.count := 500;
                       TransactionsRequestOptions.offset := 0 |}).
    set (r := getTransactions s (AccountConfig.token accountConfig) start end_
                options).
    destruct (snd r) as [e | first].
    - split; [constructor; [reflexivity | constructor] | reflexivity].
    - destruct (paging_shape fuel (fst r) (AccountConfig.token accountConfig)
                  start end_ options first eq_refl) as [Hoffs Hall].
      split.
      + constructor; [reflexivity | exact Hall].
      + unfold requested_offsets in *. simpl. rewrite Hoffs. reflexivity. }
  split; [exact Hall |].
  rewrite Hoffs, offsets_from_closed_form.
  apply List.map_ext. intros i. lia.
Qed.

(** X2. When the fetch resolves, every call has resolved, the accounts
    and the total of the response are those of the first page, its
    transactions are all the pages in arrival order with nothing cut
    off, and there are at least as many of them as the first page's
    total. *)
Theorem paged_resolution_keeps_first_page (data : TransactionsResponse.t) :
  outcome p = Some (Js.Resolved data) ->
  exists first later page,
    calls p = first :: later
    /\ response first = inr page
    /\ TransactionsResponse.accounts data = TransactionsResponse.accounts page
    /\ TransactionsResponse.total_transactions data
       = TransactionsResponse.total_transactions page
    /\ TransactionsResponse.transactions data = concat (List.map page_of (calls p))
    /\ Forall resolved_call (calls p)
    /\ TransactionsResponse.total_transactions page
       <= Z.of_nat (length (TransactionsResponse.transactions data)).
Proof.
  unfold fetchPagedTransactions.
  destruct (format startDate dateFormat) as [e | start]; [discriminate |].
  destruct (format endDate dateFormat) as [e | end_]; [discriminate |].
  cbv zeta.
  set (options := {| TransactionsRequestOptions.count := 500;
                     TransactionsRequestOptions.offset := 0 |}).
  set (r := getTransactions s (AccountConfig.token accountConfig) start end_ options).
  destruct (snd r) as [e | page] eqn:Er; [discriminate |].
  intros Hout.
  change (outcome (paging PS getTransactions fuel (fst r)
                     (AccountConfig.token accountConfig) start end_ options page)
          = Some (Js.Resolved data)) in Hout.
  destruct (paging_resolved _ _ _ _ _ _ _ _ Hout) as (Ha & Ht & Htx & Hall & Hle).
  eexists _, _, page. split; [reflexivity |].
  split; [reflexivity |]. split; [exact Ha |]. split; [exact Ht |].
  split; [exact Htx |].
  split; [constructor; [exists page; reflexivity | exact Hall] |].
  rewrite <- Ht. exact Hle.
Qed.

(** X3. The fetch rejects in two ways only. A date that [format] refuses
    rejects it before any request is made; otherwise the rejection is
    that of the last request, every request before it having resolved,
    and what those delivered is not returned. *)
Theorem paged_rejection_is_the_last_call (e : Js.Error) :
  outcome p = Some (Js.Rejected e) ->
  (calls p = []
   /\ (format startDate dateFormat = inl e \/ format endDate dateFormat = inl e))
  \/ (exists before last,
        calls p = (before ++ [last])%list
        /\ response last = inl e
        /\ Forall resolved_call before).
Proof.
  unfold fetchPagedTransactions.
  destruct (format startDate dateFormat) as [e1 | start];
    [simpl; intros [= <-]; left; auto |].
  destruct (format endDate dateFormat) as [e2 | end_];
    [simpl; intros [= <-]; left; auto |].
  cbv zeta.
  set (options := {| TransactionsRequestOptions.count := 500;
                     TransactionsRequestOptions.offset := 0 |}).
  set (r := getTransactions s (AccountConfig.token accountConfig) start end_ options).
  destruct (snd r) as [e' | page] eqn:Er.
  - simpl. intros [= <-]. right.
    exists [], {| request := options; response := inl e' |}.
    repeat split. constructor.
  - intros Hout. right.
    change (outcome (paging PS getTransactions fuel (fst r)
                       (AccountConfig.token accountConfig) start end_ options page)
            = Some (Js.Rejected e)) in Hout.
    destruct (paging_rejected _ _ _ _ _ _ _ _ Hout)
      as (before & last & Hcalls & Hlast & Hall).
    exists ({| request := options; response := inr page |} :: before), last.
    simpl. rewrite Hcalls. repeat split; [exact Hlast |].
    constructor; [exists page; reflexivity | exact Hall].
Qed.

(** X4. The loop has no bound of its own: against a provider that
    reports a positive total and delivers no transaction, the fetch
    never settles; each unit of fuel is spent on one more request. *)
Theorem paged_fetch_never_ends (start end_ : string) (page : TransactionsResponse.t) :
  always_empty getTransactions ->
  format startDate dateFormat = inr start ->
  format endDate dateFormat = inr end_ ->
  snd (getTransactions s (AccountConfig.token accountConfig) start end_
         {| TransactionsRequestOptions.count := 500;
            TransactionsRequestOptions.offset := 0 |})
  = inr page ->
  0 < TransactionsResponse.total_transactions page ->
  outcome p = None /\ length (calls p) = S fuel.
Proof.
  intros Hempty Hstart Hend Hpage Htotal.
  unfold fetchPagedTransactions. rewrite Hstart, Hend. cbv zeta. rewrite Hpage.
  destruct (Hempty s (AccountConfig.token accountConfig) start end_
              {| TransactionsRequestOptions.count := 500;
                 TransactionsRequestOptions.offset := 0 |})
    as (page' & Hpage' & Hnone).
  assert (page' = page) as -> by congruence.
  destruct (paging_stalls Hempty fuel
              (fst (getTransactions s (AccountConfig.token accountConfig) start end_
                      {| TransactionsRequestOptions.count := 500;
                         TransactionsRequestOptions.offset := 0 |}))
              (AccountConfig.token accountConfig) start end_
              {| TransactionsRequestOptions.count := 500;
                 TransactionsRequestOptions.offset := 0 |} page)
    as [Hout Hlen].
  { rewrite Hnone. simpl. exact Htotal. }
  simpl. rewrite Hout, Hlen. split; reflexivity.
Qed.

End PagedRuns.

Lemma paged_resolution_keeps_first_page_witness :
  let p :=
    fetchPagedTransactions unit (Sample.serve [] (Sample.ledger 3)) Sample.format
      2 tt Sample.accountConfig (Some 0) (Some 0) in
  exists data first later page,
    outcome p = Some (Js.Resolved data)
    /\ calls p = first :: later
    /\ response first = inr page
    /\ TransactionsResponse.total_transactions data
       = TransactionsResponse.total_transactions page.
Proof.
  intros p.
  destruct (paged_resolution_keeps_first_page unit
              (Sample.serve [] (Sample.ledger 3)) Sample.format 2 tt
              Sample.accountConfig (Some 0) (Some 0) _ eq_refl)
    as (first & later & page & Hcalls & Hfirst & _ & Htotal & _).
  eexists _, first, later, page.
  split; [reflexivity |]. split; [exact Hcalls |].
  split; [exact Hfirst | exact Htotal].
Defined.

Lemma paged_rejection_is_the_last_call_witness :
  let p :=
    fetchPagedTransactions nat Fixture.flaky Sample.format 5 2%nat
      Sample.accountConfig (Some 0) (Some 0) in
  (calls p = []
   /\ (Sample.format (Some 0) dateFormat = inl (Js.ApiError "RATE_LIMIT_EXCEEDED")
       \/ Sample.format (Some 0) dateFormat
          = inl (Js.ApiError "RATE_LIMIT_EXCEEDED")))
  \/ (exists before last,
        calls p = (before ++ [last])%list
        /\ response last = inl (Js.ApiError "RATE_LIMIT_EXCEEDED")
        /\ Forall resolved_call before).
Proof.
  apply (paged_rejection_is_the_last_call nat Fixture.flaky Sample.format 5 2%nat
           Sample.accountConfig (Some 0) (Some 0)
           (Js.ApiError "RATE_LIMIT_EXCEEDED")).
  reflexivity.
Defined.

Lemma stall_always_empty : always_empty Fixture.stall.
Proof. intros s token start end_ options. eexists. split; reflexivity. Qed.

Lemma paged_fetch_never_ends_witness :
  let p :=
    fetchPagedTransactions unit Fixture.stall Sample.format 3 tt
      Sample.accountConfig (Some 0) (Some 0) in
  outcome p = None /\ length (calls p) = 4%nat.
Proof.
  apply (paged_fetch_never_ends unit Fixture.stall Sample.format 3 tt
           Sample.accountConfig (Some 0) (Some 0) "2020-01-15" "2020-01-15"
           {| TransactionsResponse.accounts := [];
              TransactionsResponse.transactions := [];
              TransactionsResponse.total_transactions := 1 |}).
  - exact stall_always_empty.
  - reflexivity.
  - reflexivity.
  - reflexivity.
  - simpl. lia.
Defined.

(** ** The per-account pipeline, further *)

Lemma map_throws_returns {A B} (f : A -> Js.Throws B) (l : list A) (ys : list B) :
  Js.map_throws f l = inr ys <-> Forall2 (fun x y => f x = inr y) l ys.
Proof.
  revert ys. induction l as [|x l IH]; intros ys; simpl.
  - split.
    + intros [= <-]. constructor.
    + intros H. inversion H. reflexivity.
  - split.
    + destruct (f x) as [e | y] eqn:Ex; simpl; [discriminate |].
      destruct (Js.map_throws f l) as [e | ys'] eqn:El; simpl; [discriminate |].
      intros [= <-]. constructor; [exact Ex | apply IH; reflexivity].
    + intros H. inversion H as [| x' y l' ys' Hx Hl]; subst.
      rewrite Hx. simpl. apply IH in Hl. rewrite Hl. reflexivity.
Qed.

Lemma map_throws_source {A B} (f : A -> Js.Throws B) (l : list A) (ys : list B)
    (y : B) :
  Js.map_throws f l = inr ys -> In y ys -> exists x, In x l /\ f x = inr y.
Proof.
  intros Hmap. apply (proj1 (map_throws_returns f l ys)) in Hmap.
  induction Hmap as [| x y0 l ys Hx Hl IH]; simpl; [contradiction |].
  intros [<- | Hin]; [eauto |].
  destruct (IH Hin) as (x' & Hin' & Hx'). eauto.
Qed.

Lemma map_throws_throws {A B} (f : A -> Js.Throws B) (l : list A) (x : A)
    (e : Js.Error) :
  In x l -> f x = inl e ->
  exists x' e', In x' l /\ f x' = inl e' /\ Js.map_throws f l = inl e'.
Proof.
  induction l as [|x0 l IH]; simpl; [contradiction |].
  intros Hin Hx.
  destruct (f x0) as [e0 | y0] eqn:E0.
  - exists x0, e0. auto.
  - destruct Hin as [-> | Hin]; [congruence |].
    destruct (IH Hin Hx) as (x' & e' & Hin' & Hx' & Hmap).
    exists x', e'. simpl. rewrite Hmap. auto.
Qed.

Lemma map_throws_total {A B} (f : A -> Js.Throws B) (l : list A) :
  (forall x, In x l -> exists y, f x = inr y) ->
  exists ys, Js.map_throws f l = inr ys.
Proof.
  induction l as [|x l IH]; simpl; intros Hall; [eauto |].
  destruct (Hall x) as [y Hy]; [auto |].
  destruct IH as [ys Hys]; [auto |].
  rewrite Hy, Hys. simpl. eauto.
Qed.

Lemma toTransaction_throws parseISO (raw : RawTransaction.t) (e : Js.Error) :
  toTransaction parseISO raw = inl e ->
  (exists message, e = Js.TypeError message)
  /\ (Js.absent (RawTransaction.category raw) = true
      \/ Js.absent (RawTransaction.location raw) = true).
Proof.
  unfold toTransaction.
  destruct (RawTransaction.category raw) as [| |c]; simpl;
    try (intros [= <-]; split; [eexists; reflexivity | left; reflexivity]).
  destruct (RawTransaction.location raw) as [| |l]; simpl;
    try (intros [= <-]; split; [eexists; reflexivity | right; reflexivity]).
  discriminate.
Qed.

Lemma toTransaction_of_absent parseISO (raw : RawTransaction.t) :
  Js.absent (RawTransaction.category raw) = true
  \/ Js.absent (RawTransaction.location raw) = true ->
  exists e, toTransaction parseISO raw = inl e.
Proof.
  intros Habsent.
  destruct (toTransaction parseISO raw) as [e | t] eqn:E; [eauto |].
  destruct (toTransaction_inv _ _ _ E) as (c & l & Hc & Hl & _).
  rewrite Hc, Hl in Habsent. destruct Habsent; discriminate.
Qed.

Lemma toTransaction_integration parseISO (raw : RawTransaction.t)
    (t : Transaction.t) :
  toTransaction parseISO raw = inr t -> Transaction.integration t = Plaid.
Proof.
  unfold toTransaction.
  destruct (RawTransaction.category raw) as [| |c]; simpl; try discriminate.
  destruct (RawTransaction.location raw) as [| |l]; simpl; try discriminate.
  intros [= <-]. reflexivity.
Qed.

Section AccountRuns.

Variable PS : Type.
Variable getTransactions :
  PS -> string -> string -> string -> TransactionsRequestOptions.t ->
  PS * Js.Throws TransactionsResponse.t.
Variable format : Date -> string -> Js.Throws string.
Variable parseISO : string -> Date.
Variable subMonths : Date -> Z -> Date.
Variable now : Date.

Variable fuel : nat.
Variable s : PS.
Variable accountConfig : AccountConfig.t.
Variables startDate endDate : Date.

Local Abbreviation p :=
  (fetchPagedTransactions PS getTransactions format fuel s accountConfig
     startDate endDate).
Local Abbreviation f :=
  (fetchAccount PS getTransactions format parseISO subMonths now fuel s
     accountConfig startDate endDate).

Lemma fetchAccount_resolved_inv (data : TransactionsResponse.t)
    (out : list Account.t) :
  outcome p = Some (Js.Resolved data) ->
  result f = Some (Js.Resolved out) ->
  out = []
  \/ exists transactions,
       Js.map_throws (toTransaction parseISO)
         (TransactionsResponse.transactions data)
       = inr transactions
       /\ out = attach (List.map toAccount (TransactionsResponse.accounts data))
                  transactions.
Proof.
  unfold fetchAccount. intros ->. unfold normalize_and_attach.
  destruct (Js.map_throws _ _) as [e | transactions]; simpl.
  - intros [= <-]. left. reflexivity.
  - intros [= <-]. right. eauto.
Qed.

(** X5. One transaction without a category array or without a location
    object costs the whole account: the fetch had resolved, yet
    [fetchAccount] logs a TypeError and resolves with the empty list,
    dropping the accounts and every other transaction with it. *)
Theorem one_bad_transaction_empties_result (data : TransactionsResponse.t)
    (raw : RawTransaction.t) :
  outcome p = Some (Js.Resolved data) ->
  In raw (TransactionsResponse.transactions data) ->
  Js.absent (RawTransaction.category raw) = true
  \/ Js.absent (RawTransaction.location raw) = true ->
  result f = Some (Js.Resolved [])
  /\ exists before message,
       log f
       = (before ++ [failure_entry accountConfig (Js.TypeError message)])%list.
Proof.
  intros Hp Hin Habsent.
  destruct (toTransaction_of_absent parseISO raw Habsent) as [e He].
  destruct (map_throws_throws _ _ _ _ Hin He) as (raw' & e' & _ & He' & Hmap).
  destruct (toTransaction_throws _ _ _ He') as [[message ->] _].
  destruct (fetchAccount_threw PS getTransactions format parseISO subMonths now
              fuel s accountConfig startDate endDate data (Js.TypeError message) Hp)
    as [Hres [before Hlog]].
  { unfold normalize_and_attach. rewrite Hmap. reflexivity. }
  split; [exact Hres |]. exists before, message. exact Hlog.
Qed.

(** X6. When the fetch has resolved and every transaction has its
    category array and its location object, [fetchAccount] resolves
    with the accounts of the first page, in the provider's order, and
    its last log entry is the information message, which counts the
    sub-accounts and repeats the total that the provider reported. *)
Theorem fetchAccount_succeeds_on_complete_records (data : TransactionsResponse.t) :
  outcome p = Some (Js.Resolved data) ->
  (forall raw, In raw (TransactionsResponse.transactions data) ->
     Js.absent (RawTransaction.category raw) = false
     /\ Js.absent (RawTransaction.location raw) = false) ->
  exists out,
    result f = Some (Js.Resolved out)
    /\ List.map Account.accountId out
       = List.map RawAccount.account_id (TransactionsResponse.accounts data)
    /\ exists before,
         log f
         = (before
            ++ [Log.mk Log.Info
                  ("Fetched "
                   +:+ pretty (length (TransactionsResponse.accounts data))
                   +:+ " sub-accounts and "
                   +:+ pretty (TransactionsResponse.total_transactions data)
                   +:+ " transactions.")
                  (Accounts out)])%list.
Proof.
  intros Hp Hall.
  destruct (map_throws_total (toTransaction parseISO)
              (TransactionsResponse.transactions data)) as [transactions Hmap].
  { intros raw Hin. destruct (Hall raw Hin) as [Hc Hl].
    apply toTransaction_returns.
    destruct (RawTransaction.category raw) as [| |c]; try discriminate.
    destruct (RawTransaction.location raw) as [| |l]; try discriminate.
    eauto. }
  exists (attach (List.map toAccount (TransactionsResponse.accounts data))
            transactions).
  unfold fetchAccount. rewrite Hp. unfold normalize_and_attach. rewrite Hmap.
  simpl. split; [reflexivity |]. split.
  - unfold attach. rewrite !List.map_map. reflexivity.
  - eexists. reflexivity.
Qed.

(** X7. In what [fetchAccount] resolves with, the account at index [i]
    comes from the raw account at index [i], and each of its
    transactions carries the raw account's [name] as [institution], its
    [official_name] as [account], its account id, and the Plaid
    integration. *)
Theorem attached_transactions_carry_account_names
    (data : TransactionsResponse.t) (out : list Account.t) (i : nat)
    (raw : RawAccount.t) (a : Account.t) (l : list Transaction.t)
    (t : Transaction.t) :
  outcome p = Some (Js.Resolved data) ->
  result f = Some (Js.Resolved out) ->
  nth_error (TransactionsResponse.accounts data) i = Some raw ->
  nth_error out i = Some a ->
  Account.transactions a = Js.val l ->
  In t l ->
  Account.accountId a = RawAccount.account_id raw
  /\ Transaction.institution t = RawAccount.name raw
  /\ Transaction.account t = RawAccount.official_name raw
  /\ Transaction.accountId t = RawAccount.account_id raw
  /\ Transaction.integration t = Plaid.
Proof.
  intros Hp Hres Hraw Ha Hl Ht.
  destruct (fetchAccount_resolved_inv data out Hp Hres)
    as [-> | (transactions & Hmap & ->)].
  { destruct i; discriminate. }
  rewrite attach_nth, nth_error_map, Hraw in Ha. simpl in Ha.
  injection Ha as <-. simpl in Hl. injection Hl as <-.
  apply In_attached in Ht as (t0 & Hin & Hid & ->). simpl in *.
  repeat split; try assumption.
  destruct (map_throws_source _ _ _ _ Hmap Hin) as (raw0 & _ & Hraw0).
  apply (toTransaction_integration _ _ _ Hraw0).
Qed.

(** X8. The history warning is the first log entry exactly when the
    start date is earlier than five months before the clock, and no
    other entry is a warning; a start date that is not a valid date
    never warns. Neither the clock nor [subMonths] changes what the
    promise settles with. *)
Theorem history_warning_only_logs :
  (date_lt startDate (subMonths now 5) = true ->
   exists rest,
     log f = history_warning :: rest
     /\ Forall (fun entry => Log.level entry <> Log.Warn) rest)
  /\ (date_lt startDate (subMonths now 5) = false ->
      Forall (fun entry => Log.level entry <> Log.Warn) (log f))
  /\ (startDate = None ->
      Forall (fun entry => Log.level entry <> Log.Warn) (log f))
  /\ (forall subMonths' now',
        result
          (fetchAccount PS getTransactions format parseISO subMonths' now' fuel s
             accountConfig startDate endDate)
        = result f).
Proof.
  assert (forall warned : list (Log.Entry FetchData),
            exists rest,
              log (match outcome p with
                   | None => {| paged := p; log := warned; result := None |}
                   | Some (Js.Rejected error) =>
                       {| paged := p;
                          log := warned ++ [failure_entry accountConfig error];
                          result := Some (Js.Resolved []) |}
                   | Some (Js.Resolved data) =>
                       match normalize_and_attach parseISO data with
                       | inl error =>
                           {| paged := p;
                              log := warned ++ [failure_entry accountConfig error];
                              result := Some (Js.Resolved []) |}
                       | inr accounts =>
                           {| paged := p;
                              log := warned
                                     ++ [Log.mk Log.Info (fetched_message data)
                                           (Accounts accounts)];
                              result := Some (Js.Resolved accounts) |}
                       end
                   end)
              = (warned ++ rest)%list
              /\ Forall (fun entry => Log.level entry <> Log.Warn) rest) as Hlog.
  { intros warned.
    destruct (outcome p) as [[data | e] |]; simpl.
    - destruct (normalize_and_attach parseISO data); simpl;
        eexists; (split; [reflexivity |]);
        (constructor; [discriminate | constructor]).
    - eexists. split; [reflexivity |]. constructor; [discriminate | constructor].
    - exists []. rewrite app_nil_r. split; [reflexivity | constructor]. }
  assert (date_lt startDate (subMonths now 5) = false ->
          Forall (fun entry => Log.level entry <> Log.Warn) (log f)) as Hquiet.
  { intros Hlt. unfold fetchAccount. rewrite Hlt.
    destruct (Hlog []) as (rest & -> & Hrest). exact Hrest. }
  split; [| split; [exact Hquiet | split]].
  - intros Hlt. unfold fetchAccount. rewrite Hlt.
    destruct (Hlog [history_warning]) as (rest & -> & Hrest).
    exists rest. split; [reflexivity | exact Hrest].
  - intros ->. apply Hquiet. reflexivity.
  - intros subMonths' now'. unfold fetchAccount.
    destruct (outcome p) as [[data | e] |]; simpl; try reflexivity.
    destruct (normalize_and_attach parseISO data); reflexivity.
Qed.

End AccountRuns.

Lemma one_bad_transaction_empties_result_witness :
  result
    (fetchAccount unit
       (Sample.serve [Sample.account "acc1" (Js.val "USD") Js.null]
          [Sample.transaction "t1" "acc1" Sample.food (Js.val Sample.location);
           Sample.transaction "t2" "acc1" Js.null (Js.val Sample.location)])
       Sample.format Sample.parseISO Sample.subMonths Sample.now 5 tt
       Sample.accountConfig (Some 0) (Some 0))
  = Some (Js.Resolved []).
Proof.
  apply (one_bad_transaction_empties_result unit
           (Sample.serve [Sample.account "acc1" (Js.val "USD") Js.null]
              [Sample.transaction "t1" "acc1" Sample.food (Js.val Sample.location);
               Sample.transaction "t2" "acc1" Js.null (Js.val Sample.location)])
           Sample.format Sample.parseISO Sample.subMonths Sample.now 5 tt
           Sample.accountConfig (Some 0) (Some 0) _
           (Sample.transaction "t2" "acc1" Js.null (Js.val Sample.location))
           eq_refl).
  - right. left. reflexivity.
  - left. reflexivity.
Defined.

Lemma fetchAccount_succeeds_on_complete_records_witness :
  exists out,
    result
      (fetchAccount unit
         (Sample.serve [Sample.account "acc1" (Js.val "USD") Js.null]
            [Sample.transaction "t1" "acc1" Sample.food (Js.val Sample.location)])
         Sample.format Sample.parseISO Sample.subMonths Sample.now 5 tt
         Sample.accountConfig (Some 0) (Some 0))
    = Some (Js.Resolved out)
    /\ List.map Account.accountId out = ["acc1"].
Proof.
  destruct (fetchAccount_succeeds_on_complete_records unit
              (Sample.serve [Sample.account "acc1" (Js.val "USD") Js.null]
                 [Sample.transaction "t1" "acc1" Sample.food
                    (Js.val Sample.location)])
              Sample.format Sample.parseISO Sample.subMonths Sample.now 5 tt
              Sample.accountConfig (Some 0) (Some 0) _ eq_refl)
    as (out & Hout & Hids & _).
  - intros raw [<- | []]. split; reflexivity.
  - exists out. split; [exact Hout | exact Hids].
Defined.

Lemma attached_transactions_carry_account_names_witness :
  exists a t,
    Account.accountId a = "acc1"
    /\ Transaction.institution t = Js.val "Checking"
    /\ Transaction.account t = Js.null.
Proof.
  eexists _, _.
  pose proof (attached_transactions_carry_account_names unit
                (Sample.serve [Sample.account "acc1" (Js.val "USD") Js.null]
                   [Sample.transaction "t1" "acc1" Sample.food
                      (Js.val Sample.location)])
                Sample.format Sample.parseISO Sample.subMonths Sample.now 5 tt
                Sample.accountConfig (Some 0) (Some 0) _ _ 0%nat
                (Sample.account "acc1" (Js.val "USD") Js.null) _ _ _
                eq_refl eq_refl eq_refl eq_refl eq_refl (or_introl eq_refl))
    as (H1 & H2 & H3 & _).
  split; [exact H1 |]. split; [exact H2 | exact H3].
Defined.

Lemma history_warning_only_logs_witness :
  exists rest,
    log (fetchAccount unit Sample.refuse Sample.format Sample.parseISO
           Sample.subMonths Sample.now 5 tt Sample.accountConfig (Some 0) (Some 0))
    = history_warning :: rest.
Proof.
  destruct (proj1 (history_warning_only_logs unit Sample.refuse Sample.format
                     Sample.parseISO Sample.subMonths Sample.now 5 tt
                     Sample.accountConfig (Some 0) (Some 0)) eq_refl)
    as (rest & Hlog & _).
  exists rest. exact Hlog.
Defined.

(** ** Reconciler, further *)

(** X9. The type of a normalized account is the subtype whenever the
    subtype is a non-empty string; it is the coarse type when the
    subtype is null, undefined or the empty string; and it is always one
    of the two. *)
Theorem account_type_resolution (raw : RawAccount.t) :
  resolved_from (RawAccount.subtype raw) (RawAccount.type raw)
    (Account.type (toAccount raw)).
Proof. apply or_resolved_from. Qed.

Lemma account_type_resolution_witness :
  Account.type (toAccount (Sample.account "acc1" Js.null Js.null))
  = Js.val "checking".
Proof.
  apply (proj1 (account_type_resolution (Sample.account "acc1" Js.null Js.null))
           "checking").
  - reflexivity.
  - discriminate.
Defined.

Lemma filter_sublist {A} (keep : A -> bool) (l : list A) :
  sublist (List.filter keep l) l.
Proof.
  induction l as [|x l IH]; simpl; [constructor |].
  destruct (keep x); [apply sublist_skip | apply sublist_cons]; exact IH.
Qed.

Lemma map_sublist {A B} (g : A -> B) (k l : list A) :
  sublist k l -> sublist (List.map g k) (List.map g l).
Proof.
  induction 1; simpl; [constructor | apply sublist_skip | apply sublist_cons];
    assumption.
Qed.

(** X10. Attachment keeps the order in which the transactions were
    fetched and adds none: the transaction ids in the list of an account
    are a subsequence of the ids of the normalized transactions. *)
Theorem attached_in_fetch_order (accounts : list Account.t)
    (transactions : list Transaction.t) (i : nat) (l : list Transaction.t) :
  transactions_at (attach accounts transactions) i = Some l ->
  sublist (List.map Transaction.transactionId l)
    (List.map Transaction.transactionId transactions).
Proof.
  rewrite transactions_at_attach.
  destruct (nth_error accounts i) as [a|]; [| discriminate].
  simpl. intros [= <-]. unfold attached. rewrite List.map_map. simpl.
  apply map_sublist, filter_sublist.
Qed.

Lemma attached_in_fetch_order_witness :
  sublist ["t1"; "t3"] ["t1"; "t2"; "t3"].
Proof.
  apply (attached_in_fetch_order
           [toAccount (Sample.account "acc1" (Js.val "USD") Js.null)]
           [Sample.plain_transaction "t1" "acc1";
            Sample.plain_transaction "t2" "acc2";
            Sample.plain_transaction "t3" "acc1"]
           0%nat
           [embed (toAccount (Sample.account "acc1" (Js.val "USD") Js.null))
              (Sample.plain_transaction "t1" "acc1");
            embed (toAccount (Sample.account "acc1" (Js.val "USD") Js.null))
              (Sample.plain_transaction "t3" "acc1")]).
  reflexivity.
Defined.

Lemma attached_total_attach (accounts : list Account.t)
    (transactions : list Transaction.t) :
  attached_total (attach accounts transactions)
  = list_sum
      (List.map (fun a => length (List.filter (owned_by a) transactions)) accounts).
Proof.
  unfold attached_total, attach. rewrite List.map_map. f_equal.
  apply List.map_ext. intros a. simpl. unfold attached. apply length_map.
Qed.

Lemma filter_either_length {A} (keep1 keep2 : A -> bool) (l : list A) :
  (length (List.filter (fun x => keep1 x || keep2 x) l)
   <= length (List.filter keep1 l) + length (List.filter keep2 l))%nat
  /\ ((forall x, In x l -> keep1 x = true -> keep2 x = false) ->
      length (List.filter (fun x => keep1 x || keep2 x) l)
      = (length (List.filter keep1 l) + length (List.filter keep2 l))%nat).
Proof.
  induction l as [|x l [IHle IHeq]]; simpl; [split; reflexivity |].
  split.
  - destruct (keep1 x), (keep2 x); simpl; lia.
  - intros Hdisjoint.
    assert (length (List.filter (fun x => keep1 x || keep2 x) l)
            = (length (List.filter keep1 l) + length (List.filter keep2 l))%nat)
      as Heq by (apply IHeq; intros y Hy; apply Hdisjoint; right; exact Hy).
    pose proof (Hdisjoint x (or_introl eq_refl)) as Hx.
    destruct (keep1 x); simpl; [rewrite Hx by reflexivity |];
      [simpl; lia |]. destruct (keep2 x); simpl; lia.
Qed.

Lemma matched_spec (accounts : list Account.t) (t : Transaction.t) :
  matched accounts t = true
  <-> In (Transaction.accountId t) (List.map Account.accountId accounts).
Proof.
  unfold matched. rewrite existsb_exists, in_map_iff. split.
  - intros (a & Hin & Hown). apply owned_by_spec in Hown. eauto.
  - intros (a & Hid & Hin). exists a. rewrite owned_by_spec. auto.
Qed.

(** X11. Every transaction whose accountId is that of some account is
    attached at least once, so a result holds at least as many
    transactions as were matched; when the accountIds of the batch are
    pairwise distinct it holds exactly the matched ones, each once, and
    never more than were fetched. *)
Theorem attached_total_counts_matches (accounts : list Account.t)
    (transactions : list Transaction.t) :
  (length (List.filter (matched accounts) transactions)
   <= attached_total (attach accounts transactions))%nat
  /\ (List.NoDup (List.map Account.accountId accounts) ->
      attached_total (attach accounts transactions)
      = length (List.filter (matched accounts) transactions)
      /\ (attached_total (attach accounts transactions) <= length transactions)%nat).
Proof.
  rewrite attached_total_attach.
  induction accounts as [|a accounts [IHle IHeq]].
  - simpl. replace (List.filter (matched []) transactions)
      with (@nil Transaction.t)
      by (induction transactions; simpl; auto).
    split; [reflexivity |]. intros _. split; [reflexivity | simpl; lia].
  - change (matched (a :: accounts))
      with (fun t => owned_by a t || matched accounts t).
    destruct (filter_either_length (owned_by a) (matched accounts) transactions)
      as [Hle Heq].
    simpl list_sum. split; [lia |].
    intros Hnodup. simpl in Hnodup.
    inversion Hnodup as [| id ids Hfresh Hrest]; subst.
    assert (forall t, In t transactions ->
                      owned_by a t = true -> matched accounts t = false)
      as Hdisjoint.
    { intros t _ Hown.
      destruct (matched accounts t) eqn:Hmatch; [| reflexivity].
      exfalso. apply Hfresh.
      apply owned_by_spec in Hown. rewrite <- Hown. apply matched_spec, Hmatch. }
    destruct (IHeq Hrest) as [IH _].
    specialize (Heq Hdisjoint).
    split.
    + rewrite IH, Heq. reflexivity.
    + rewrite IH, <- Heq. apply List.filter_length_le.
Qed.

Lemma attached_total_counts_matches_witness :
  attached_total
    (attach
       [toAccount (Sample.account "acc1" (Js.val "USD") Js.null);
        toAccount (Sample.account "acc2" (Js.val "USD") Js.null)]
       [Sample.plain_transaction "t1" "acc1";
        Sample.plain_transaction "t2" "gone";
        Sample.plain_transaction "t3" "acc1"])
  = 2%nat.
Proof.
  apply (proj2 (attached_total_counts_matches
                  [toAccount (Sample.account "acc1" (Js.val "USD") Js.null);
                   toAccount (Sample.account "acc2" (Js.val "USD") Js.null)]
                  [Sample.plain_transaction "t1" "acc1";
                   Sample.plain_transaction "t2" "gone";
                   Sample.plain_transaction "t3" "acc1"])).
  simpl. constructor.
  - simpl. intros [H | []]. discriminate H.
  - constructor; [simpl; tauto | constructor].
Defined.

(** ** Exchange server, further *)

Lemma exchange_callback_configs (error : js Js.Error)
    (tokenResponse : js TokenResponse.t) (st : Handshake.State) :
  match tokenResponse with
  | Js.val response =>
      let config :=
        {| Config.accounts :=
             <[TokenResponse.item_id response := saved_account response]>
               (Config.accounts (Handshake.store st)) |} in
      Handshake.store (Handshake.exchange_callback error tokenResponse st) = config
      /\ Handshake.this_config (Handshake.exchange_callback error tokenResponse st)
         = config
  | _ =>
      Handshake.store (Handshake.exchange_callback error tokenResponse st)
      = Handshake.store st
      /\ Handshake.this_config (Handshake.exchange_callback error tokenResponse st)
         = Handshake.this_config st
  end.
Proof.
  unfold Handshake.exchange_callback.
  destruct tokenResponse; simpl; handshake_cases; split; reflexivity.
Qed.

Lemma step_configs (st st' : Handshake.State) (ev : Handshake.Event) :
  Handshake.step st ev = Some st' ->
  (Handshake.store st' = Handshake.store st
   /\ Handshake.this_config st' = Handshake.this_config st)
  \/ (exists error response,
        ev = Handshake.ExchangeCallback error (Js.val response)
        /\ Handshake.store st'
           = {| Config.accounts :=
                  <[TokenResponse.item_id response := saved_account response]>
                    (Config.accounts (Handshake.store st)) |}
        /\ Handshake.this_config st' = Handshake.store st').
Proof.
  destruct ev as [| body | | token | | error tokenResponse]; simpl;
    try (intros [= <-]; left; split; reflexivity).
  - intros [= <-]. left. unfold Handshake.get_access_token.
    handshake_cases; split; reflexivity.
  - destruct (Handshake.exchanging st) as [|n]; [discriminate |].
    intros [= <-].
    pose proof (exchange_callback_configs error tokenResponse
                  (Handshake.set_exchanging n st)) as H.
    destruct tokenResponse as [| | response]; cbv zeta in H;
      [left; exact H | left; exact H | right].
    exists error, response. destruct H as [H1 H2].
    split; [reflexivity |]. split; [exact H1 | rewrite H2, H1; reflexivity].
Qed.

Lemma step_callback_store (st st' : Handshake.State) (error : js Js.Error)
    (response : TokenResponse.t) :
  Handshake.step st (Handshake.ExchangeCallback error (Js.val response)) = Some st' ->
  Handshake.store st'
  = {| Config.accounts :=
         <[TokenResponse.item_id response := saved_account response]>
           (Config.accounts (Handshake.store st)) |}.
Proof.
  simpl. destruct (Handshake.exchanging st) as [|n]; [discriminate |].
  intros [= <-]. rewrite exchange_callback_store. reflexivity.
Qed.

(** X12. A handshake never removes a credential: over any run, an item
    id that the store holds stays in the store, and the entry of an item
    id that no token response of the run names is left as it was. *)
Theorem credentials_are_never_removed (evs : list Handshake.Event) :
  forall st st',
    Handshake.run st evs = Some st' ->
    (forall key,
       is_Some (Config.accounts (Handshake.store st) !! key) ->
       is_Some (Config.accounts (Handshake.store st') !! key))
    /\ (forall key,
          (forall error response,
             In (Handshake.ExchangeCallback error (Js.val response)) evs ->
             TokenResponse.item_id response <> key) ->
          Config.accounts (Handshake.store st') !! key
          = Config.accounts (Handshake.store st) !! key).
Proof.
  induction evs as [|ev evs IH]; simpl; intros st st' Hrun.
  - injection Hrun as <-. split; auto.
  - destruct (Handshake.step st ev) as [st1|] eqn:E; [| discriminate].
    destruct (IH st1 st' Hrun) as [IHkeep IHsame].
    destruct (step_configs _ _ _ E)
      as [[Hstore _] | (error & response & -> & Hstore & _)].
    + rewrite Hstore in *. split; [exact IHkeep |].
      intros key Hfresh. apply IHsame. intros error response Hin.
      apply (Hfresh error response). right. exact Hin.
    + split.
      * intros key Hkey. apply IHkeep. rewrite Hstore. simpl.
        apply lookup_insert_is_Some.
        destruct (decide (TokenResponse.item_id response = key)); auto.
      * intros key Hfresh. rewrite IHsame.
        -- rewrite Hstore. simpl. apply lookup_insert_ne.
           apply (Hfresh error response). left. reflexivity.
        -- intros error' response' Hin. apply (Hfresh error' response').
           right. exact Hin.
Qed.

(** X13. Over any run of a handshake, [this.config] stays the stored
    configuration once it is, as it is when [addAccount] starts; and the
    store keeps every credential under its own id with the Plaid
    integration. *)
Theorem handshake_keeps_configuration_in_step (evs : list Handshake.Event) :
  forall st st',
    Handshake.run st evs = Some st' ->
    (Handshake.this_config st = Handshake.store st ->
     Handshake.this_config st' = Handshake.store st')
    /\ (well_keyed (Handshake.store st) -> well_keyed (Handshake.store st')).
Proof.
  induction evs as [|ev evs IH]; simpl; intros st st' Hrun.
  - injection Hrun as <-. split; auto.
  - destruct (Handshake.step st ev) as [st1|] eqn:E; [| discriminate].
    destruct (IH st1 st' Hrun) as [IHsync IHkeyed].
    destruct (step_configs _ _ _ E)
      as [[Hstore Hthis] | (error & response & -> & Hstore & Hthis)].
    + split.
      * intros Hsync. apply IHsync. congruence.
      * intros Hkeyed. apply IHkeyed. rewrite Hstore. exact Hkeyed.
    + split.
      * intros _. apply IHsync. exact Hthis.
      * intros Hkeyed. apply IHkeyed. rewrite Hstore.
        intros key credential. simpl.
        destruct (decide (TokenResponse.item_id response = key)) as [<- | Hne].
        -- rewrite lookup_insert_eq. intros [= <-]. split; reflexivity.
        -- rewrite lookup_insert_ne by exact Hne. apply Hkeyed.
Qed.

(** X14. Exchanging again for an item id rotates its token in place: of
    two token responses for the same item id the store keeps the second,
    and every other entry is as it was before the first. *)
Theorem token_rotation_overwrites (st st1 st2 : Handshake.State)
    (error1 error2 : js Js.Error) (first second : TokenResponse.t) :
  Handshake.step st (Handshake.ExchangeCallback error1 (Js.val first)) = Some st1 ->
  Handshake.step st1 (Handshake.ExchangeCallback error2 (Js.val second))
  = Some st2 ->
  TokenResponse.item_id first = TokenResponse.item_id second ->
  Config.accounts (Handshake.store st2)
  = <[TokenResponse.item_id second :=
        {| AccountConfig.id := TokenResponse.item_id second;
           AccountConfig.integration := Plaid;
           AccountConfig.token := TokenResponse.access_token second |}]>
      (Config.accounts (Handshake.store st)).
Proof.
  intros H1 H2 Hsame.
  rewrite (step_callback_store _ _ _ _ H2), (step_callback_store _ _ _ _ H1).
  simpl. rewrite Hsame. apply insert_insert_eq.
Qed.

Lemma token_rotation_overwrites_witness :
  let st := Handshake.get_access_token Sample.token_body Sample.exchanging in
  exists st1 st2,
    Handshake.step st
      (Handshake.ExchangeCallback Js.null (Js.val Sample.tokenResponse))
    = Some st1
    /\ Handshake.step st1
         (Handshake.ExchangeCallback Js.null (Js.val Fixture.rotated))
       = Some st2
    /\ Config.accounts (Handshake.store st2)
       = <["itemX" := Fixture.credential "itemX" "accY"]>
           (Config.accounts (Handshake.store st)).
Proof.
  intros st. eexists _, _. split; [reflexivity |]. split; [reflexivity |].
  apply (token_rotation_overwrites st _ _ Js.null Js.null
           Sample.tokenResponse Fixture.rotated eq_refl eq_refl eq_refl).
Defined.

Lemma credentials_are_never_removed_witness :
  exists st',
    Handshake.run Sample.exchanging
      [Handshake.ExchangeCallback Js.null (Js.val Sample.tokenResponse);
       Handshake.PostGetAccessToken Sample.exit_body;
       Handshake.PostDone]
    = Some st'
    /\ Config.accounts (Handshake.store st') !! "itemY"
       = Config.accounts (Handshake.store Sample.exchanging) !! "itemY".
Proof.
  eexists. split; [reflexivity |].
  apply (proj2 (credentials_are_never_removed
                  [Handshake.ExchangeCallback Js.null (Js.val Sample.tokenResponse);
                   Handshake.PostGetAccessToken Sample.exit_body;
                   Handshake.PostDone]
                  Sample.exchanging _ eq_refl) "itemY").
  intros error response [H | [H | [H | []]]]; try discriminate H.
  injection H as _ <-. discriminate.
Defined.

Lemma handshake_keeps_configuration_in_step_witness :
  exists st',
    Handshake.run (Handshake.addAccount Sample.no_accounts)
      [Handshake.PostGetAccessToken Sample.token_body;
       Handshake.ExchangeCallback Js.null (Js.val Sample.tokenResponse);
       Handshake.PostDone]
    = Some st'
    /\ Handshake.this_config st' = Handshake.store st'.
Proof.
  eexists. split; [reflexivity |].
  apply (proj1 (handshake_keeps_configuration_in_step
                  [Handshake.PostGetAccessToken Sample.token_body;
                   Handshake.ExchangeCallback Js.null (Js.val Sample.tokenResponse);
                   Handshake.PostDone]
                  (Handshake.addAccount Sample.no_accounts) _ eq_refl)).
  reflexivity.
Defined.

(** X15. There is no [return] after [reject]: an exchange callback that
    brings an error together with a token response rejects the pending
    promise and then saves the token all the same, logging the error
    followed by the saved message. *)
Theorem rejected_exchange_with_response_still_saves (st : Handshake.State)
    (n : nat) (error : js Js.Error) (response : TokenResponse.t) :
  Handshake.exchanging st = S n ->
  Handshake.promise st = Handshake.Pending ->
  Js.not_nullish error = true ->
  let failure :=
    Log.mk Log.Error "Encountered error exchanging Plaid public token."
      (Handshake.ExchangeError error) in
  exists st',
    Handshake.step st (Handshake.ExchangeCallback error (Js.val response))
    = Some st'
    /\ Handshake.promise st' = Handshake.Rejected failure
    /\ Config.accounts (Handshake.store st') !! TokenResponse.item_id response
       = Some
           {| AccountConfig.id := TokenResponse.item_id response;
              AccountConfig.integration := Plaid;
              AccountConfig.token := TokenResponse.access_token response |}
    /\ Handshake.log st'
       = (Handshake.log st
          ++ [failure;
              Log.mk Log.Info "Plaid access token saved." Handshake.NoData])%list
    /\ Handshake.uncaught st' = Handshake.uncaught st.
Proof.
  intros Hn Hpending Herr failure. simpl. rewrite Hn.
  eexists. split; [reflexivity |].
  unfold Handshake.exchange_callback. rewrite Herr. simpl. rewrite Hpending.
  split; [reflexivity |].
  split; [apply lookup_insert_eq |].
  split; [rewrite <- app_assoc; reflexivity | reflexivity].
Qed.

(** X16. A failed exchange brings no token response, and the callback
    saves it regardless: after rejecting, it throws a TypeError from
    inside the callback. The error is logged, the saved message is not,
    and the store is as it was. *)
Theorem failed_exchange_throws_after_rejecting (st : Handshake.State) (n : nat)
    (error : js Js.Error) (tokenResponse : js TokenResponse.t) :
  Handshake.exchanging st = S n ->
  Js.not_nullish error = true ->
  Js.absent tokenResponse = true ->
  exists st' message,
    Handshake.step st (Handshake.ExchangeCallback error tokenResponse) = Some st'
    /\ Handshake.uncaught st'
       = (Handshake.uncaught st ++ [Js.TypeError message])%list
    /\ Handshake.log st'
       = (Handshake.log st
          ++ [Log.mk Log.Error "Encountered error exchanging Plaid public token."
                (Handshake.ExchangeError error)])%list
    /\ Handshake.promise st' <> Handshake.Pending
    /\ Handshake.store st' = Handshake.store st.
Proof.
  intros Hn Herr Habsent. simpl. rewrite Hn.
  unfold Handshake.exchange_callback. rewrite Herr.
  destruct tokenResponse; try discriminate; simpl;
    eexists _, _; (split; [reflexivity |]); simpl;
    (split; [reflexivity |]); (split; [reflexivity |]);
    (split; [| reflexivity]);
    destruct (Handshake.promise st); discriminate.
Qed.

(** X17. Requests that bring no outcome leave the handshake undecided:
    over a run of page loads, listings, token refreshes, done posts and
    posts that carry a public token (null included, whatever else the
    body holds), the promise, the store, the log and the list of thrown
    errors are as they were. A done post on its own closes the server
    and leaves the promise pending. *)
Theorem quiet_requests_settle_nothing (evs : list Handshake.Event) :
  forall st st',
    Handshake.run st evs = Some st' ->
    forallb is_quiet evs = true ->
    Handshake.promise st' = Handshake.promise st
    /\ Handshake.store st' = Handshake.store st
    /\ Handshake.log st' = Handshake.log st
    /\ Handshake.uncaught st' = Handshake.uncaught st.
Proof.
  induction evs as [|ev evs IH]; simpl; intros st st' Hrun Hquiet.
  - injection Hrun as <-. repeat split.
  - apply andb_prop in Hquiet as [Hev Hevs].
    destruct (Handshake.step st ev) as [st1|] eqn:E; [| discriminate].
    destruct (IH st1 st' Hrun Hevs) as (-> & -> & -> & ->).
    destruct ev as [| body | | token | | error tokenResponse]; simpl in E, Hev;
      try discriminate; try (injection E as <-; repeat split; fail).
    injection E as <-. unfold Handshake.get_access_token.
    unfold has_token in Hev. rewrite Hev. repeat split.
Qed.

(** X18. A successful exchange on a pending promise resolves it with the
    saved message, which is the one entry it logs; nothing is thrown,
    and [this.config] is the configuration just stored, with the new
    credential under its item id. *)
Theorem successful_exchange_resolves (st : Handshake.State) (n : nat)
    (error : js Js.Error) (response : TokenResponse.t) :
  Handshake.exchanging st = S n ->
  Handshake.promise st = Handshake.Pending ->
  Js.absent error = true ->
  let saved := Log.mk Log.Info "Plaid access token saved." Handshake.NoData in
  exists st',
    Handshake.step st (Handshake.ExchangeCallback error (Js.val response))
    = Some st'
    /\ Handshake.promise st' = Handshake.Fulfilled saved
    /\ Handshake.log st' = (Handshake.log st ++ [saved])%list
    /\ Handshake.uncaught st' = Handshake.uncaught st
    /\ Handshake.this_config st' = Handshake.store st'
    /\ Config.accounts (Handshake.this_config st') !! TokenResponse.item_id response
       = Some
           {| AccountConfig.id := TokenResponse.item_id response;
              AccountConfig.integration := Plaid;
              AccountConfig.token := TokenResponse.access_token response |}.
Proof.
  intros Hn Hpending Herr saved. simpl. rewrite Hn.
  eexists. split; [reflexivity |].
  unfold Handshake.exchange_callback, Js.not_nullish. rewrite Herr. simpl.
  rewrite Hpending.
  repeat split. apply lookup_insert_eq.
Qed.

Lemma rejected_exchange_with_response_still_saves_witness :
  exists st',
    Handshake.step Sample.exchanging
      (Handshake.ExchangeCallback (Js.val (Js.ApiError "INTERNAL_SERVER_ERROR"))
         (Js.val Sample.tokenResponse))
    = Some st'
    /\ Handshake.promise st'
       = Handshake.Rejected
           (Log.mk Log.Error "Encountered error exchanging Plaid public token."
              (Handshake.ExchangeError
                 (Js.val (Js.ApiError "INTERNAL_SERVER_ERROR"))))
    /\ Config.accounts (Handshake.store st') !! "itemX"
       = Some (Fixture.credential "itemX" "accX").
Proof.
  destruct (rejected_exchange_with_response_still_saves Sample.exchanging 0%nat
              (Js.val (Js.ApiError "INTERNAL_SERVER_ERROR")) Sample.tokenResponse
              eq_refl eq_refl eq_refl)
    as (st' & Hstep & Hpromise & Hstore & _).
  exists st'. split; [exact Hstep |]. split; [exact Hpromise | exact Hstore].
Defined.

Lemma failed_exchange_throws_after_rejecting_witness :
  exists st' message,
    Handshake.step Sample.exchanging
      (Handshake.ExchangeCallback (Js.val (Js.ApiError "INVALID_PUBLIC_TOKEN"))
         Js.undefined)
    = Some st'
    /\ Handshake.uncaught st' = [Js.TypeError message].
Proof.
  destruct (failed_exchange_throws_after_rejecting Sample.exchanging 0%nat
              (Js.val (Js.ApiError "INVALID_PUBLIC_TOKEN")) Js.undefined
              eq_refl eq_refl eq_refl)
    as (st' & message & Hstep & Hthrown & _).
  exists st', message. split; [exact Hstep | exact Hthrown].
Defined.

Lemma quiet_requests_settle_nothing_witness :
  exists st',
    Handshake.run (Handshake.addAccount Sample.no_accounts)
      [Handshake.GetRoot; Handshake.PostAccounts;
       Handshake.PostGetAccessToken Sample.token_body; Handshake.PostDone]
    = Some st'
    /\ Handshake.promise st' = Handshake.Pending
    /\ Handshake.listening st' = false.
Proof.
  eexists. split; [reflexivity |]. split; [| reflexivity].
  apply (quiet_requests_settle_nothing
           [Handshake.GetRoot; Handshake.PostAccounts;
            Handshake.PostGetAccessToken Sample.token_body; Handshake.PostDone]
           (Handshake.addAccount Sample.no_accounts) _ eq_refl eq_refl).
Defined.

Lemma successful_exchange_resolves_witness :
  exists st',
    Handshake.step Sample.exchanging
      (Handshake.ExchangeCallback Js.null (Js.val Sample.tokenResponse))
    = Some st'
    /\ Handshake.promise st'
       = Handshake.Fulfilled
           (Log.mk Log.Info "Plaid access token saved." Handshake.NoData).
Proof.
  destruct (successful_exchange_resolves Sample.exchanging 0%nat Js.null
              Sample.tokenResponse eq_refl eq_refl eq_refl)
    as (st' & Hstep & Hpromise & _).
  exists st'. split; [exact Hstep | exact Hpromise].
Defined.

(** ** Account listing *)

Lemma entry_of_token (account : AccountConfig.t)
    (lookup : Js.Throws AccountsResponse.t) :
  Listing.token (Listing.entry_of account lookup) = AccountConfig.token account.
Proof.
  unfold Listing.entry_of.
  destruct (let! resp := lookup in Listing.first_name resp); reflexivity.
Qed.

Lemma entry_of_name (account : AccountConfig.t)
    (lookup : Js.Throws AccountsResponse.t) :
  Listing.name (Listing.entry_of account lookup)
  = match lookup with
    | inl _ => Js.val Listing.placeholder
    | inr resp =>
        match AccountsResponse.accounts resp with
        | [] => Js.val Listing.placeholder
        | first :: _ => RawAccount.name first
        end
    end.
Proof.
  unfold Listing.entry_of, Listing.first_name.
  destruct lookup as [e | resp]; simpl; [reflexivity |].
  destruct (AccountsResponse.accounts resp); reflexivity.
Qed.

Section ListingRuns.

Variable PS : Type.
Variable getAccounts : PS -> string -> PS * Js.Throws AccountsResponse.t.

(** X19. Whatever the lookups give, the listing has one entry for each
    linked account, in the order of the accounts and with the token of
    its account; the name of an entry is the placeholder or the name of
    the first sub-account in an answer of the provider to that token. *)
Theorem listing_has_an_entry_per_account (s : PS)
    (accounts : list AccountConfig.t) :
  Forall2
    (fun account entry =>
       Listing.token entry = AccountConfig.token account
       /\ (Listing.name entry = Js.val Listing.placeholder
           \/ exists s' resp first rest,
                snd (getAccounts s' (AccountConfig.token account)) = inr resp
                /\ AccountsResponse.accounts resp = first :: rest
                /\ Listing.name entry = RawAccount.name first))
    accounts (snd (Listing.list_accounts PS getAccounts s accounts)).
Proof.
  revert s. induction accounts as [|account accounts IH]; intros s; simpl.
  - constructor.
  - constructor; [| apply IH].
    split; [apply entry_of_token |].
    rewrite entry_of_name.
    destruct (snd (getAccounts s (AccountConfig.token account)))
      as [e | resp] eqn:E; [left; reflexivity |].
    destruct (AccountsResponse.accounts resp) as [|first rest] eqn:Er;
      [left; reflexivity |].
    right. exists s, resp, first, rest. auto.
Qed.

(** X20. When the answer to a lookup depends on the token alone, each
    entry is decided by the lookup of its own account: the listing of a
    list of accounts followed by another is the listing of the first
    followed by the listing of the second, and an entry is the
    placeholder exactly when its lookup rejects or lists no sub-account
    (or names its first sub-account so). A failed lookup changes no
    other entry. *)
Theorem listing_isolates_failed_lookups
    (lookup : string -> Js.Throws AccountsResponse.t) :
  (forall s token, snd (getAccounts s token) = lookup token) ->
  forall s accounts,
    snd (Listing.list_accounts PS getAccounts s accounts)
    = List.map
        (fun account =>
           {| Listing.name :=
                match lookup (AccountConfig.token account) with
                | inl _ => Js.val Listing.placeholder
                | inr resp =>
                    match AccountsResponse.accounts resp with
                    | [] => Js.val Listing.placeholder
                    | first :: _ => RawAccount.name first
                    end
                end;
              Listing.token := AccountConfig.token account |})
        accounts.
Proof.
  intros Hlookup s accounts. revert s.
  induction accounts as [|account accounts IH]; intros s; simpl; [reflexivity |].
  rewrite IH. f_equal.
  set (entry := Listing.entry_of account
                  (snd (getAccounts s (AccountConfig.token account)))).
  transitivity {| Listing.name := Listing.name entry;
                  Listing.token := Listing.token entry |};
    [destruct entry; reflexivity |].
  subst entry. rewrite entry_of_name, entry_of_token, Hlookup. reflexivity.
Qed.

End ListingRuns.

Lemma listing_isolates_failed_lookups_witness :
  snd (Listing.list_accounts unit Fixture.getAccounts tt
         [Fixture.credential "itemA" "a"; Fixture.credential "itemB" "b"])
  = [{| Listing.name := Js.val "Real Name A"; Listing.token := "a" |};
     {| Listing.name := Js.val "Error fetching account name";
        Listing.token := "b" |}].
Proof.
  apply (listing_isolates_failed_lookups unit Fixture.getAccounts
           (fun token => snd (Fixture.getAccounts tt token))).
  intros [] token. reflexivity.
Defined.
